(** * diff_handler: extraction, segmentation and merging of AI code blocks

    A shallow embedding of [diff_handler.py] (Python 3 semantics) and the
    properties of its four functions [extract_code_blocks],
    [parse_code_block], [apply_diff] and [process_ai_output].

    Python [str] values are sequences of Unicode code points; they are
    modelled as lists of code points ([N]).  Python dictionaries are mutable
    objects: they live in a store and are passed around by reference. *)

From Stdlib Require Import NArith Ascii String.
From stdpp Require Import option list gmap.

Local Open Scope N_scope.
Local Open Scope nat_scope.

(** ** Python strings *)

Module Str.

Definition char := N.
Definition str := list char.

Definition NL : char := 10%N.
Definition CR : char := 13%N.
Definition BSLASH : char := 92%N.

(** [py] reads the body of a Python string literal: every character stands
    for its code point, and the escapes [\n], [\r], [\t] and [\\] stand for
    the characters Python gives them. *)
Fixpoint py_chars (l : list ascii) : str :=
  match l with
  | [] => []
  | a :: l' =>
      if N.eqb (N_of_ascii a) BSLASH then
        match l' with
        | b :: l'' =>
            if N.eqb (N_of_ascii b) 110%N then NL :: py_chars l''
            else if N.eqb (N_of_ascii b) 114%N then CR :: py_chars l''
            else if N.eqb (N_of_ascii b) 116%N then 9%N :: py_chars l''
            else if N.eqb (N_of_ascii b) BSLASH then BSLASH :: py_chars l''
            else BSLASH :: py_chars l'
        | [] => [BSLASH]
        end
      else N_of_ascii a :: py_chars l'
  end.

Definition py (s : string) : str := py_chars (list_ascii_of_string s).

(** [sep.join(xs)] *)
Fixpoint join (sep : str) (xs : list str) : str :=
  match xs with
  | [] => []
  | [x] => x
  | x :: xs' => x ++ sep ++ join sep xs'
  end.

(** Line boundaries of [str.splitlines] for Python 3 text strings. *)
Definition is_linebreak (c : char) : bool :=
  (N.eqb c 10 || N.eqb c 13 || N.eqb c 11 || N.eqb c 12
   || N.eqb c 28 || N.eqb c 29 || N.eqb c 30 || N.eqb c 133
   || N.eqb c 8232 || N.eqb c 8233)%N.

(** [splitlines_from cur s]: the lines of [cur ++ s], where [cur] is the part
    of the current line that was already read.  A carriage return followed by
    a line feed is one boundary; a boundary at the very end opens no further
    line. *)
Fixpoint splitlines_from (cur : str) (s : str) : list str :=
  match s with
  | [] => match cur with [] => [] | _ => [cur] end
  | c :: s' =>
      if N.eqb c CR then
        match s' with
        | d :: s'' =>
            if N.eqb d NL then cur :: splitlines_from [] s''
            else cur :: splitlines_from [] s'
        | [] => cur :: splitlines_from [] s'
        end
      else if is_linebreak c then cur :: splitlines_from [] s'
      else splitlines_from (cur ++ [c]) s'
  end.

Definition splitlines (s : str) : list str := splitlines_from [] s.

(** Characters removed by [str.strip()]: those for which [str.isspace] holds. *)
Definition is_space (c : char) : bool :=
  ((9 <=? c) && (c <=? 13) || (28 <=? c) && (c <=? 32)
   || N.eqb c 133 || N.eqb c 160 || N.eqb c 5760
   || (8192 <=? c) && (c <=? 8202)
   || N.eqb c 8232 || N.eqb c 8233 || N.eqb c 8239 || N.eqb c 8287
   || N.eqb c 12288)%N.

Fixpoint lstrip (s : str) : str :=
  match s with
  | [] => []
  | c :: s' => if is_space c then lstrip s' else s
  end.

Definition rstrip (s : str) : str := reverse (lstrip (reverse s)).

Definition strip (s : str) : str := rstrip (lstrip s).

End Str.
Import Str.

(** ** The Positional Merger: [apply_diff] *)

(** [xs[i:i+n]] *)
Definition slice (xs : list str) (i n : nat) : list str := take n (drop i xs).

(** [xs[i:i+n] = ys] *)
Definition slice_assign (xs : list str) (i n : nat) (ys : list str) : list str :=
  take i xs ++ ys ++ drop (i + n) xs.

(** The inner loop [for j in range(len(new_lines))] at start index [i]: it
    returns [match_found] and the value of [result_lines] when it ends. *)
Fixpoint inner_loop (js : list nat) (i : nat)
    (original_lines new_lines result_lines : list str) : bool * list str :=
  match js with
  | [] => (false, result_lines)
  | j :: js' =>
      match new_lines !! j with
      | Some line =>
          if bool_decide (line ∈ slice original_lines i (length new_lines))
          then (true, slice_assign result_lines i (length new_lines) new_lines)
          else inner_loop js' i original_lines new_lines result_lines
      | None => (false, result_lines)
      end
  end.

(** The outer loop [for i in range(len(original_lines))]. *)
Fixpoint outer_loop (idxs : list nat)
    (original_lines new_lines result_lines : list str) : list str :=
  match idxs with
  | [] => result_lines
  | i :: idxs' =>
      match inner_loop (seq 0 (length new_lines)) i
              original_lines new_lines result_lines with
      | (true, result_lines') => result_lines'
      | (false, result_lines') =>
          outer_loop idxs' original_lines new_lines result_lines'
      end
  end.

Definition apply_diff (original_code new_content : str) : str :=
  let original_lines := splitlines original_code in
  let new_lines := splitlines new_content in
  let result_lines := original_lines in
  join [NL] (outer_loop (seq 0 (length original_lines))
               original_lines new_lines result_lines).

(** The test the merger makes at start index [i]: some line of the segment
    occurs in the window of original lines [[i, i + len(segment))]. *)
Definition in_window (original_lines new_lines : list str) (i : nat)
    (line : str) : bool :=
  bool_decide (line ∈ slice original_lines i (length new_lines)).

Definition window_match (original_lines new_lines : list str) (i : nat) : bool :=
  existsb (in_window original_lines new_lines i) new_lines.

(** ** The Marker Segmenter: [parse_code_block] *)

(** A change is the tuple [(action, content, context_lines)]. *)
Definition change : Type := str * str * nat.

Definition context_markers : gset str :=
  {[ py "// existing code..."; py "// ..."; py "# existing code...";
     py "# ..."; py "..."; py "# rest of the file"; py "// rest of the file" ]}.

(** The loop variables of [parse_code_block]. *)
Record seg_state := SegState {
  changes : list change;
  current_section : list str;
  in_change_section : bool
}.

Definition is_marker (line : str) : bool :=
  bool_decide (strip line ∈ context_markers).

(** One iteration of [for line in lines]. *)
Definition seg_step (st : seg_state) (line : str) : seg_state :=
  if is_marker line then
    if in_change_section st && negb (bool_decide (current_section st = [])) then
      SegState (changes st ++ [(py "replace", join [NL] (current_section st), 3)])
               [] false
    else
      SegState (changes st) (current_section st) false
  else
    SegState (changes st) (current_section st ++ [line]) true.

Definition parse_code_block (block_content : str) : list change :=
  let lines := splitlines block_content in
  let st := fold_left seg_step lines (SegState [] [] false) in
  if negb (bool_decide (current_section st = [])) then
    changes st ++ [(py "replace", join [NL] (current_section st), 3)]
  else changes st.

(** ** The Block Extractor: [extract_code_blocks] *)

Record CodeBlock := mkCodeBlock {
  language : str;
  filepath : option str;
  content : str
}.

Definition BACKTICK : char := 96%N.
Definition FENCE : str := py "```".

Section Extractor.

(** The pattern is a text pattern, so [\w] is Unicode-aware: it accepts the
    ASCII letters, digits and underscore, and every other character that
    [str.isalnum] accepts.  The Unicode character table is not part of the
    program; it is the parameter [unicode_alnum], consulted only for code
    points from 128 on. *)
Variable unicode_alnum : char -> bool.

Definition is_word (c : char) : bool :=
  ((c <? 128) && ((48 <=? c) && (c <=? 57) || (65 <=? c) && (c <=? 90)
                  || N.eqb c 95 || (97 <=? c) && (c <=? 122))
   || (128 <=? c) && unicode_alnum c)%N.

Definition not_newline (c : char) : bool := negb (N.eqb c NL).

(** With [re.DOTALL] the dot accepts every character. *)
Definition dot (c : char) : bool := true.

(** Backtracking matching: a pattern applied to the text that remains gives
    the list of its ways to match, in the order in which the engine tries
    them; every entry holds what was consumed and what remains. *)

(** A literal string. *)
Definition lit (p : str) (s : str) : list str :=
  if bool_decide (take (length p) s = p) then [drop (length p) s] else [].

(** [X+] for a character class [X], greedy: the longest run first. *)
Fixpoint plus_greedy (X : char -> bool) (s : str) : list (str * str) :=
  match s with
  | [] => []
  | c :: s' =>
      if X c then
        ((fun ar : str * str => (c :: ar.1, ar.2)) <$> plus_greedy X s')
          ++ [([c], s')]
      else []
  end.

(** [X*?] for a character class [X], lazy: the shortest run first. *)
Fixpoint star_lazy (X : char -> bool) (s : str) : list (str * str) :=
  ([], s) ::
  match s with
  | [] => []
  | c :: s' =>
      if X c then (fun ar : str * str => (c :: ar.1, ar.2)) <$> star_lazy X s'
      else []
  end.

(** All the ways the pattern
    [```(\w+)(?::([^\n]+))?\n(.*?)```]
    matches at the start of [s], in the engine's order: the three groups and
    the text after the match. *)
Definition match_here (s : str) : list (str * option str * str * str) :=
  r1 ← lit FENCE s;
  '(g1, r2) ← plus_greedy is_word r1;
  '(g2, r3) ← (r ← lit (py ":") r2;
               '(p, r') ← plus_greedy not_newline r;
               [(Some p, r')])
              ++ [(None, r2)];
  r4 ← lit [NL] r3;
  '(g3, r5) ← star_lazy dot r4;
  r6 ← lit FENCE r5;
  [(g1, g2, g3, r6)].

(** [re.finditer]: the leftmost match, then the next one from where it ends.
    [skip] counts the characters of the last match that are still to pass.
    A match of this pattern is never empty. *)
Fixpoint finditer (skip : nat) (s : str) : list (str * option str * str) :=
  match skip, s with
  | _, [] => []
  | S k, _ :: s' => finditer k s'
  | 0, _ :: s' =>
      match head (match_here s) with
      | Some (g, rest) => g :: finditer (length s - length rest - 1) s'
      | None => finditer 0 s'
      end
  end.

Definition extract_code_blocks (ai_output : str) : list CodeBlock :=
  (fun g : str * option str * str => mkCodeBlock g.1.1 g.1.2 (strip g.2))
    <$> finditer 0 ai_output.

End Extractor.

(** ** The File Reconciler: [process_ai_output] *)

(** Dictionaries are objects in a store, named by references.  An operation
    on a reference that names no dictionary, and a lookup of a missing key,
    raise: the computation has no result. *)
Module Store.

Abbreviation ref := positive.
Abbreviation store := (gmap ref (gmap str str)).
Definition M (A : Type) : Type := store -> option (A * store).

Definition ret {A} (a : A) : M A := fun h => Some (a, h).

Definition bind {A B} (m : M A) (k : A -> M B) : M B :=
  fun h => match m h with
           | Some (a, h') => k a h'
           | None => None
           end.

(** [d.copy()]: a new dictionary with the entries of [d]. *)
Definition dict_copy (d : ref) : M ref :=
  fun h => match h !! d with
           | Some m => let d' := fresh (dom h) in Some (d', <[d' := m]> h)
           | None => None
           end.

(** [k in d] *)
Definition dict_contains (d : ref) (k : str) : M bool :=
  fun h => match h !! d with
           | Some m => Some (bool_decide (is_Some (m !! k)), h)
           | None => None
           end.

(** [d[k]] *)
Definition dict_get (d : ref) (k : str) : M str :=
  fun h => match h !! d with
           | Some m => match m !! k with
                       | Some v => Some (v, h)
                       | None => None
                       end
           | None => None
           end.

(** [d[k] = v] *)
Definition dict_set (d : ref) (k v : str) : M unit :=
  fun h => match h !! d with
           | Some m => Some (tt, <[d := <[k := v]> m]> h)
           | None => None
           end.

(** [for x in xs: body x] *)
Fixpoint for_each {A} (xs : list A) (body : A -> M unit) : M unit :=
  match xs with
  | [] => ret tt
  | x :: xs' => bind (body x) (fun _ => for_each xs' body)
  end.

End Store.
Import Store.

Notation "'let!' x := m 'in' k" := (bind m (fun x => k))
  (at level 10, x name, m at level 100, k at level 200).

(** [for action, content, context in changes: ...] *)
Definition apply_changes (current_content : str) (chs : list change) : str :=
  fold_left (fun cur (ch : change) =>
               if bool_decide (ch.1.1 = py "replace") then apply_diff cur ch.1.2
               else cur)
            chs current_content.

(** The body of [for block in code_blocks]. *)
Definition process_block (modified_files : ref) (block : CodeBlock) : M unit :=
  match filepath block with
  | None => ret tt
  | Some path =>
      if bool_decide (path = []) then ret tt
      else
        let! present := dict_contains modified_files path in
        if negb present then
          dict_set modified_files path (content block)
        else
          let! original_content := dict_get modified_files path in
          let chs := parse_code_block (content block) in
          let current_content := apply_changes original_content chs in
          dict_set modified_files path current_content
  end.

Section Reconciler.

Variable unicode_alnum : char -> bool.

Definition process_ai_output (ai_output : str) (files : ref) : M ref :=
  let! modified_files := dict_copy files in
  let code_blocks := extract_code_blocks unicode_alnum ai_output in
  let! _ := for_each code_blocks (process_block modified_files) in
  ret modified_files.

End Reconciler.

(** ** Predicates used in the statements *)

(** The only line boundary in [s] is the line feed. *)
Definition only_lf (s : str) : bool :=
  forallb (fun c => negb (is_linebreak c) || N.eqb c NL) s.

(** [s] keeps its line structure under [splitlines] and a join on line feeds:
    line feeds are its only boundaries and it does not end with one. *)
Definition line_normal (s : str) : bool :=
  only_lf s && negb (bool_decide (last s = Some NL)).

(** The three backticks occur in [s] at position [p]. *)
Definition fence_at (s : str) (p : nat) : bool :=
  bool_decide (take 3 (drop p s) = FENCE).

(** Position [p] of [s] begins a line: it is the start of the text or comes
    right after a line feed. *)
Definition line_start (s : str) (p : nat) : bool :=
  match p with
  | 0 => true
  | S q => bool_decide (s !! q = Some NL)
  end.

(** The text of a fence header after the backticks: the language, then a
    colon and the path when there is one. *)
Definition header (lang : str) (path : option str) : str :=
  lang ++ match path with Some p => py ":" ++ p | None => [] end.

(** What one iteration of [for block in code_blocks] does to the contents
    [m] of the dictionary [modified_files]. *)
Definition block_step (m : gmap str str) (block : CodeBlock) : gmap str str :=
  match filepath block with
  | None => m
  | Some path =>
      if bool_decide (path = []) then m
      else match m !! path with
           | None => <[path := content block]> m
           | Some original_content =>
               <[path := apply_changes original_content
                           (parse_code_block (content block))]> m
           end
  end.

(** The change made of a run of lines, and the changes [parse_code_block]
    returns from the loop variables [st] once the loop has ended. *)
Definition segment (ls : list str) : change := (py "replace", join [NL] ls, 3).

Definition flush (st : seg_state) : list change :=
  if negb (bool_decide (current_section st = [])) then
    changes st ++ [segment (current_section st)]
  else changes st.

(** The loop keeps [in_change_section] set whenever lines are accumulated. *)
Definition seg_inv (st : seg_state) : Prop :=
  current_section st <> [] -> in_change_section st = true.

(** The number of backticks of a text. *)
Definition backticks (s : str) : nat := length (filter (fun c => c = BACKTICK) s).

Example splitlines_ex1 : splitlines (py "A\nB\nA\nC") = [py "A"; py "B"; py "A"; py "C"].
Proof. reflexivity. Qed.

Example splitlines_ex2 : splitlines (py "a\r\nb\n") = [py "a"; py "b"].
Proof. reflexivity. Qed.

Example splitlines_ex3 : splitlines (py "\n\na") = [[]; []; py "a"].
Proof. reflexivity. Qed.

Example strip_ex1 : strip (py "  a b \n") = py "a b".
Proof. reflexivity. Qed.

Example apply_diff_ex1 : apply_diff (py "A\nB\nA\nC") (py "A\nX") = py "A\nX\nA\nC".
Proof. vm_compute. reflexivity. Qed.

Example parse_ex1 :
  parse_code_block (py "L1\n// ...\nL2\n// ...\nL3")
  = [(py "replace", py "L1", 3); (py "replace", py "L2", 3); (py "replace", py "L3", 3)].
Proof. vm_compute. reflexivity. Qed.

Example extract_ex1 :
  extract_code_blocks (fun _ => false)
    (py "intro\n```python:f.py\nprint('Hello, World!')\n```\nend ```js\nx```")
  = [mkCodeBlock (py "python") (Some (py "f.py")) (py "print('Hello, World!')");
     mkCodeBlock (py "js") None (py "x")].
Proof. vm_compute. reflexivity. Qed.

Example process_ex1 :
  (r ← process_ai_output (fun _ => false)
         (py "```python:f.py\nprint('Hello, World!')\n```") 1%positive
         {[ 1%positive := {[ py "f.py" := py "print('Hello')" ]} ]};
   m ← r.2 !! r.1;
   m !! py "f.py") = Some (py "print('Hello')").
Proof. vm_compute. reflexivity. Qed.

(** ** Lines *)

Lemma splitlines_from_nonempty cur s : cur <> [] -> splitlines_from cur s <> [].
Proof.
  revert cur. induction s as [|c s IH]; intros cur Hcur; simpl.
  - destruct cur; congruence.
  - destruct (N.eqb c CR).
    + destruct s as [|d s']; [discriminate|]. destruct (N.eqb d NL); discriminate.
    + destruct (is_linebreak c); [discriminate|].
      apply IH. destruct cur; discriminate.
Qed.

Lemma splitlines_nonempty s : s <> [] -> splitlines s <> [].
Proof.
  destruct s as [|c s]; [congruence|]. intros _. unfold splitlines. simpl.
  destruct (N.eqb c CR).
  - destruct s as [|d s']; [discriminate|]. destruct (N.eqb d NL); discriminate.
  - destruct (is_linebreak c); [discriminate|].
    apply splitlines_from_nonempty. discriminate.
Qed.

Lemma join_cons sep x xs : xs <> [] -> join sep (x :: xs) = x ++ sep ++ join sep xs.
Proof. destruct xs; [congruence|reflexivity]. Qed.

Lemma last_cons_cons {A} (a b : A) l : last (a :: b :: l) = last (b :: l).
Proof. reflexivity. Qed.

Lemma join_splitlines_from cur s :
  only_lf s = true -> last s <> Some NL ->
  join [NL] (splitlines_from cur s) = cur ++ s.
Proof.
  revert cur. induction s as [|c s IH]; intros cur Hlf Hlast.
  - simpl. destruct cur; [reflexivity|]. simpl. by rewrite app_nil_r.
  - simpl in Hlf. apply andb_true_iff in Hlf as [Hc Hlf].
    assert (Hlast' : s <> [] -> last s <> Some NL).
    { destruct s; [congruence|]. intros _. by rewrite last_cons_cons in Hlast. }
    simpl. destruct (N.eqb c CR) eqn:Hcr.
    + apply N.eqb_eq in Hcr. subst c. discriminate.
    + destruct (is_linebreak c) eqn:Hlb.
      * simpl in Hc. apply N.eqb_eq in Hc. subst c.
        destruct s as [|d s']; [by simpl in Hlast|].
        rewrite join_cons by (apply splitlines_nonempty; discriminate).
        rewrite (IH []) by (auto; apply Hlast'; discriminate).
        reflexivity.
      * rewrite IH; [by rewrite <- app_assoc|done|].
        destruct s; [discriminate|]. apply Hlast'. discriminate.
Qed.

(** A text with line feeds as only boundaries and none at its end is the
    join of its lines. *)
Lemma join_splitlines s : line_normal s = true -> join [NL] (splitlines s) = s.
Proof.
  unfold line_normal. intros [Hlf Hl]%andb_true_iff.
  apply negb_true_iff, bool_decide_eq_false in Hl.
  by apply (join_splitlines_from []).
Qed.

Lemma splitlines_from_no_linebreak_le n : forall cur s,
  length s <= n ->
  Forall (fun c => is_linebreak c = false) cur ->
  Forall (Forall (fun c => is_linebreak c = false)) (splitlines_from cur s).
Proof.
  induction n as [|n IH]; intros cur [|c s] Hlen Hcur; simpl in *;
    try (destruct cur; [constructor|by repeat (constructor; [done|])]); try lia.
  destruct (N.eqb c CR).
  - destruct s as [|d s']; [by repeat (constructor; [done|])|].
    simpl in Hlen.
    destruct (N.eqb d NL); (constructor; [done|]); apply IH; simpl; auto; lia.
  - destruct (is_linebreak c) eqn:Hlb.
    + constructor; [done|]. apply IH; auto. lia.
    + apply IH; [lia|]. apply Forall_app. split; [done|]. by constructor.
Qed.

(** No line of a text holds a line boundary. *)
Lemma splitlines_no_linebreak s :
  Forall (Forall (fun c => is_linebreak c = false)) (splitlines s).
Proof. by apply (splitlines_from_no_linebreak_le (length s)). Qed.

(** ** The merger's loops *)

Section Merger.

Variables original_lines new_lines : list str.

Lemma inner_loop_seq (i a k : nat) (result_lines : list str) :
  a + k = length new_lines ->
  inner_loop (seq a k) i original_lines new_lines result_lines
  = if existsb (in_window original_lines new_lines i) (drop a new_lines)
    then (true, slice_assign result_lines i (length new_lines) new_lines)
    else (false, result_lines).
Proof.
  revert a. induction k as [|k IH]; intros a Hk; simpl.
  - rewrite drop_ge by lia. reflexivity.
  - destruct (lookup_lt_is_Some_2 new_lines a) as [line Hline]; [lia|].
    rewrite Hline, (drop_S _ _ _ Hline). simpl. unfold in_window at 1.
    destruct (bool_decide _); [reflexivity|].
    simpl. apply IH. lia.
Qed.

(** The inner loop decides the window test and, when it holds, splices. *)
Lemma inner_loop_window (i : nat) (result_lines : list str) :
  inner_loop (seq 0 (length new_lines)) i original_lines new_lines result_lines
  = if window_match original_lines new_lines i
    then (true, slice_assign result_lines i (length new_lines) new_lines)
    else (false, result_lines).
Proof. by rewrite inner_loop_seq. Qed.

(** The outer loop stops at the first index that passes the window test. *)
Lemma outer_loop_first (pre post : list nat) (i : nat) (result_lines : list str) :
  Forall (fun k => window_match original_lines new_lines k = false) pre ->
  window_match original_lines new_lines i = true ->
  outer_loop (pre ++ i :: post) original_lines new_lines result_lines
  = slice_assign result_lines i (length new_lines) new_lines.
Proof.
  induction 1 as [|k pre Hk _ IH]; intros Hi; simpl; rewrite inner_loop_window.
  - by rewrite Hi.
  - rewrite Hk. by apply IH.
Qed.

Lemma outer_loop_none (idxs : list nat) (result_lines : list str) :
  Forall (fun k => window_match original_lines new_lines k = false) idxs ->
  outer_loop idxs original_lines new_lines result_lines = result_lines.
Proof.
  induction 1 as [|k idxs Hk _ IH]; simpl; [done|].
  by rewrite inner_loop_window, Hk.
Qed.

(** Whatever the loops do, the result is built from lines of the two texts. *)
Lemma outer_loop_lines (idxs : list nat) :
  Forall (fun l => l ∈ original_lines \/ l ∈ new_lines)
         (outer_loop idxs original_lines new_lines original_lines).
Proof.
  assert (Horig : Forall (fun l => l ∈ original_lines \/ l ∈ new_lines) original_lines).
  { apply Forall_forall. auto. }
  induction idxs as [|i idxs IH]; simpl; [done|].
  rewrite inner_loop_window.
  destruct (window_match _ _ i); [|done].
  unfold slice_assign. rewrite !Forall_app. split_and!.
  - by apply Forall_take.
  - apply Forall_forall. auto.
  - by apply Forall_drop.
Qed.

End Merger.

Lemma seq_split_at (n i : nat) :
  i < n -> seq 0 n = seq 0 i ++ i :: seq (S i) (n - S i).
Proof.
  intros Hi. replace n with (i + S (n - S i)) at 1 by lia.
  by rewrite seq_app.
Qed.

Lemma apply_diff_at_first (original_code new_content : str) (i : nat) :
  i < length (splitlines original_code) ->
  window_match (splitlines original_code) (splitlines new_content) i = true ->
  (forall k, k < i ->
     window_match (splitlines original_code) (splitlines new_content) k = false) ->
  apply_diff original_code new_content
  = join [NL] (slice_assign (splitlines original_code) i
                 (length (splitlines new_content)) (splitlines new_content)).
Proof.
  intros Hi Hm Hbefore. unfold apply_diff.
  rewrite (seq_split_at _ i Hi), outer_loop_first; [done| |done].
  apply Forall_forall. intros k Hk%elem_of_seq. apply Hbefore. lia.
Qed.

Lemma apply_diff_no_match (original_code new_content : str) :
  (forall i, i < length (splitlines original_code) ->
     window_match (splitlines original_code) (splitlines new_content) i = false) ->
  apply_diff original_code new_content = join [NL] (splitlines original_code).
Proof.
  intros Hno. unfold apply_diff. rewrite outer_loop_none; [done|].
  apply Forall_forall. intros k Hk%elem_of_seq. apply Hno. lia.
Qed.

(** ** Properties of the Positional Merger *)

(** C1. First match wins: when [i] is the first start index whose window of
    original lines holds some line of the segment, [apply_diff] replaces the
    lines of that window by all the lines of the segment and returns, with
    no regard to later indices.  So [apply_diff("A\nB\nA\nC", "A\nX")] is
    ["A\nX\nA\nC"], and a later index that would match both lines of the
    segment does not change the choice. *)
Theorem apply_diff_first_match :
  (forall (original_code new_content : str) (i : nat),
     i < length (splitlines original_code) ->
     window_match (splitlines original_code) (splitlines new_content) i = true ->
     (forall k, k < i ->
        window_match (splitlines original_code) (splitlines new_content) k = false) ->
     apply_diff original_code new_content
     = join [NL] (take i (splitlines original_code)
                  ++ splitlines new_content
                  ++ drop (i + length (splitlines new_content))
                          (splitlines original_code)))
  /\ apply_diff (py "A\nB\nA\nC") (py "A\nX") = py "A\nX\nA\nC"
  /\ apply_diff (py "A\nB\nA\nX") (py "A\nX") = py "A\nX\nA\nX".
Proof.
  split_and!.
  - intros o n i Hi Hm Hb. by rewrite (apply_diff_at_first o n i).
  - vm_compute. reflexivity.
  - vm_compute. reflexivity.
Qed.

Lemma apply_diff_first_match_witness :
  apply_diff (py "P\nA\nB\nA\nC") (py "A\nX")
  = join [NL] (take 0 (splitlines (py "P\nA\nB\nA\nC"))
               ++ splitlines (py "A\nX")
               ++ drop (0 + length (splitlines (py "A\nX")))
                       (splitlines (py "P\nA\nB\nA\nC"))).
Proof.
  apply (proj1 apply_diff_first_match (py "P\nA\nB\nA\nC") (py "A\nX") 0).
  - vm_compute. lia.
  - vm_compute. reflexivity.
  - intros k Hk. lia.
Defined.

(** C3, as stated, fails: the lines of the segment ["A\nB"] are lines 1 and 2
    of ["X\nA\nB"], yet the window at index 0 already holds ["A"], the splice
    happens there and the result differs from the original. *)
Lemma idempotence_counterexample :
  (exists pre post, splitlines (py "X\nA\nB") = pre ++ splitlines (py "A\nB") ++ post)
  /\ apply_diff (py "X\nA\nB") (py "A\nB") = py "A\nB\nB"
  /\ apply_diff (py "X\nA\nB") (py "A\nB") <> py "X\nA\nB".
Proof.
  split_and!.
  - exists [py "X"], []. vm_compute. reflexivity.
  - vm_compute. reflexivity.
  - vm_compute. discriminate.
Qed.

(** C3, amended.  When the lines of the segment occur as a contiguous run of
    the original lines, and no start index before the run passes the window
    test, [apply_diff] returns the join of the original lines on line feeds;
    that is the original content when line feeds are its only line
    boundaries and it does not end with one. *)
Theorem apply_diff_in_place
    (original_code new_content : str) (pre post : list str) :
  splitlines original_code = pre ++ splitlines new_content ++ post ->
  (forall k, k < length pre ->
     window_match (splitlines original_code) (splitlines new_content) k = false) ->
  apply_diff original_code new_content = join [NL] (splitlines original_code)
  /\ (line_normal original_code = true ->
      apply_diff original_code new_content = original_code).
Proof.
  intros Hrun Hbefore.
  assert (Hjoin : apply_diff original_code new_content
                  = join [NL] (splitlines original_code)).
  { destruct (splitlines new_content) as [|l nl] eqn:Hnl.
    - apply apply_diff_no_match. intros i _. by rewrite Hnl.
    - rewrite (apply_diff_at_first _ _ (length pre)).
      + f_equal. unfold slice_assign. rewrite Hnl, Hrun.
        rewrite take_app_length. do 2 f_equal.
        by rewrite <- drop_drop, !drop_app_length.
      + rewrite Hrun, !length_app. simpl. lia.
      + rewrite Hnl. simpl. apply orb_true_iff. left.
        apply bool_decide_eq_true. unfold slice.
        rewrite Hrun, drop_app_length. simpl. left.
      + intros k Hk. rewrite Hnl. by apply Hbefore. }
  split; [done|]. intros Hn. by rewrite Hjoin, join_splitlines.
Qed.

Lemma apply_diff_in_place_witness :
  apply_diff (py "X\nA\nC") (py "A") = join [NL] (splitlines (py "X\nA\nC"))
  /\ (line_normal (py "X\nA\nC") = true ->
      apply_diff (py "X\nA\nC") (py "A") = py "X\nA\nC").
Proof.
  apply (apply_diff_in_place (py "X\nA\nC") (py "A") [py "X"] [py "C"]).
  - vm_compute. reflexivity.
  - intros k Hk. simpl in Hk. assert (k = 0) as -> by lia. vm_compute. reflexivity.
Defined.

(** C4, as stated, fails: no window of ["a\n"] holds the line ["x"], yet the
    result ["a"] is not the original content, whose final line feed is lost. *)
Lemma no_match_counterexample :
  (forall i, window_match (splitlines (py "a\n")) (splitlines (py "x")) i = false)
  /\ apply_diff (py "a\n") (py "x") = py "a"
  /\ apply_diff (py "a\n") (py "x") <> py "a\n".
Proof.
  split_and!.
  - intros [|[|i]]; vm_compute; reflexivity.
  - vm_compute. reflexivity.
  - vm_compute. discriminate.
Qed.

(** C4, amended.  When no start index passes the window test, [apply_diff]
    raises nothing, appends nothing and returns the join of the original
    lines on line feeds; that is the original content when line feeds are its
    only line boundaries and it does not end with one. *)
Theorem apply_diff_no_match_noop (original_code new_content : str) :
  (forall i, i < length (splitlines original_code) ->
     window_match (splitlines original_code) (splitlines new_content) i = false) ->
  apply_diff original_code new_content = join [NL] (splitlines original_code)
  /\ (line_normal original_code = true ->
      apply_diff original_code new_content = original_code).
Proof.
  intros Hno. rewrite (apply_diff_no_match _ _ Hno).
  split; [done|]. apply join_splitlines.
Qed.

Lemma apply_diff_no_match_noop_witness :
  apply_diff (py "a\n\nb") (py "x\ny") = join [NL] (splitlines (py "a\n\nb"))
  /\ (line_normal (py "a\n\nb") = true ->
      apply_diff (py "a\n\nb") (py "x\ny") = py "a\n\nb").
Proof.
  apply (apply_diff_no_match_noop (py "a\n\nb") (py "x\ny")).
  intros i Hi. change (i < 3) in Hi.
  destruct i as [|[|[|i]]]; [vm_compute; reflexivity ..|lia].
Defined.

(** C10. The merger normalizes line structure: the result of [apply_diff] is
    always a join on line feeds of lines of the two texts, none of which
    holds a line boundary.  So [apply_diff("a\n", "x")] is ["a"], a carriage
    return and line feed becomes a line feed, and an empty segment gives the
    join of the original lines, with or without match. *)
Theorem apply_diff_normalizes :
  (forall original_code new_content : str,
     exists ls : list str,
       apply_diff original_code new_content = join [NL] ls
       /\ Forall (fun l => l ∈ splitlines original_code \/ l ∈ splitlines new_content) ls
       /\ Forall (Forall (fun c => is_linebreak c = false)) ls)
  /\ apply_diff (py "a\n") (py "x") = py "a"
  /\ apply_diff (py "a\r\nb") (py "x") = py "a\nb"
  /\ (forall c : str, apply_diff c (py "") = join [NL] (splitlines c)).
Proof.
  split_and!.
  - intros o n.
    exists (outer_loop (seq 0 (length (splitlines o)))
              (splitlines o) (splitlines n) (splitlines o)).
    split; [reflexivity|].
    assert (H := outer_loop_lines (splitlines o) (splitlines n)
                   (seq 0 (length (splitlines o)))).
    split; [done|].
    eapply Forall_impl; [exact H|]. intros l [Hl|Hl]; simpl in *.
    + exact (proj1 (Forall_forall _ _) (splitlines_no_linebreak o) l Hl).
    + exact (proj1 (Forall_forall _ _) (splitlines_no_linebreak n) l Hl).
  - vm_compute. reflexivity.
  - vm_compute. reflexivity.
  - intros c. by apply apply_diff_no_match.
Qed.

(** ** Properties of the Marker Segmenter *)

Lemma fold_seg_step_no_marker (lines : list str) (chs : list change)
    (cur : list str) (flag : bool) :
  Forall (fun l => is_marker l = false) lines ->
  fold_left seg_step lines (SegState chs cur flag)
  = SegState chs (cur ++ lines)
      (match lines with [] => flag | _ => true end).
Proof.
  intros Hno. revert cur flag.
  induction Hno as [|l lines Hl _ IH]; intros cur flag; simpl.
  - by rewrite app_nil_r.
  - unfold seg_step at 2. rewrite Hl. simpl. rewrite IH, <- app_assoc. simpl.
    by destruct lines.
Qed.

Lemma lstrip_head (s : str) (c : char) :
  head (lstrip s) = Some c -> is_space c = false.
Proof.
  induction s as [|d s IH]; simpl; [done|].
  destruct (is_space d) eqn:Hd; [done|]. simpl. congruence.
Qed.

(** A trimmed text does not end with a line feed. *)
Lemma strip_fixpoint_last (s : str) : strip s = s -> last s <> Some NL.
Proof.
  unfold strip, rstrip. intros Hs Hlast.
  apply (f_equal reverse) in Hs. rewrite reverse_involutive in Hs.
  rewrite <- head_reverse, <- Hs in Hlast.
  by apply lstrip_head in Hlast.
Qed.

(** C7, as stated, fails: the empty body has no marker line and gives no
    segment at all; and the body ["a\r\nb"] gives one segment whose text
    ["a\nb"] is not the trimmed body. *)
Lemma marker_free_counterexample :
  (Forall (fun l => is_marker l = false) (splitlines (py ""))
   /\ parse_code_block (py "") = [])
  /\ (Forall (fun l => is_marker l = false) (splitlines (py "a\r\nb"))
      /\ parse_code_block (py "a\r\nb") = [(py "replace", py "a\nb", 3)]
      /\ py "a\nb" <> strip (py "a\r\nb")).
Proof.
  split_and!.
  - constructor.
  - vm_compute. reflexivity.
  - vm_compute. repeat constructor.
  - vm_compute. reflexivity.
  - vm_compute. discriminate.
Qed.

(** C7, amended.  For every non-empty body none of whose lines, trimmed, is
    one of the seven markers, [parse_code_block] returns exactly one segment;
    its text is the join of the lines of the body on line feeds, which is
    the body itself when the body is trimmed and line feeds are its only line
    boundaries. *)
Theorem parse_code_block_marker_free (block_content : str) :
  block_content <> [] ->
  Forall (fun l => is_marker l = false) (splitlines block_content) ->
  parse_code_block block_content
  = [(py "replace", join [NL] (splitlines block_content), 3)]
  /\ (strip block_content = block_content -> only_lf block_content = true ->
      parse_code_block block_content = [(py "replace", block_content, 3)]).
Proof.
  intros Hne Hno.
  assert (Hp : parse_code_block block_content
               = [(py "replace", join [NL] (splitlines block_content), 3)]).
  { unfold parse_code_block. rewrite (fold_seg_step_no_marker _ _ _ _ Hno). simpl.
    apply splitlines_nonempty in Hne.
    destruct (splitlines block_content) as [|l ls]; [done|].
    rewrite bool_decide_eq_false_2; done. }
  split; [done|]. intros Hstrip Hlf. rewrite Hp, join_splitlines; [done|].
  unfold line_normal. rewrite Hlf. simpl.
  apply negb_true_iff, bool_decide_eq_false. by apply strip_fixpoint_last.
Qed.

Lemma parse_code_block_marker_free_witness :
  parse_code_block (py "def f():\n    return 1 # ...")
  = [(py "replace", join [NL] (splitlines (py "def f():\n    return 1 # ...")), 3)]
  /\ (strip (py "def f():\n    return 1 # ...") = py "def f():\n    return 1 # ..." ->
      only_lf (py "def f():\n    return 1 # ...") = true ->
      parse_code_block (py "def f():\n    return 1 # ...")
      = [(py "replace", py "def f():\n    return 1 # ...", 3)]).
Proof.
  apply (parse_code_block_marker_free (py "def f():\n    return 1 # ...")).
  - vm_compute. discriminate.
  - vm_compute. repeat constructor.
Defined.

(** ** The reconciler on the store *)

Lemma process_block_run (l : ref) (b : CodeBlock) (h : store) (m : gmap str str) :
  h !! l = Some m ->
  process_block l b h = Some (tt, <[l := block_step m b]> h).
Proof.
  intros Hl. unfold process_block, block_step.
  destruct (filepath b) as [path|]; [|by unfold ret; rewrite insert_id].
  case_bool_decide; [by unfold ret; rewrite insert_id|].
  unfold bind, dict_contains, dict_get, dict_set. rewrite Hl.
  destruct (m !! path) as [v|] eqn:Hv; simpl.
  - by rewrite ?Hl, ?Hv, ?Hl.
  - by rewrite ?Hl.
Qed.

Lemma for_each_run (l : ref) (bs : list CodeBlock) (h : store) (m : gmap str str) :
  h !! l = Some m ->
  for_each bs (process_block l) h = Some (tt, <[l := fold_left block_step bs m]> h).
Proof.
  revert h m. induction bs as [|b bs IH]; intros h m Hl; simpl.
  - unfold ret. by rewrite insert_id.
  - unfold bind. rewrite (process_block_run l b h m Hl).
    rewrite (IH _ (block_step m b)) by apply lookup_insert_eq.
    by rewrite insert_insert_eq.
Qed.

(** The call returns: it allocates a dictionary at a fresh reference and
    leaves there the entries of the input after all the blocks. *)
Lemma process_ai_output_run (w : char -> bool) (ai_output : str) (files : ref)
    (h : store) (m : gmap str str) :
  h !! files = Some m ->
  process_ai_output w ai_output files h
  = Some (fresh (dom h),
          <[fresh (dom h) := fold_left block_step (extract_code_blocks w ai_output) m]> h).
Proof.
  intros Hf. unfold process_ai_output, bind at 1, dict_copy. rewrite Hf. simpl.
  unfold bind. rewrite (for_each_run _ _ _ m) by apply lookup_insert_eq.
  unfold ret. by rewrite insert_insert_eq.
Qed.

Lemma fresh_ref_unused (h : store) : h !! fresh (dom h) = None.
Proof. apply not_elem_of_dom, is_fresh. Qed.

Lemma block_step_keeps_keys (m : gmap str str) (b : CodeBlock) (k : str) :
  is_Some (m !! k) -> is_Some (block_step m b !! k).
Proof.
  intros Hk. unfold block_step.
  destruct (filepath b) as [path|]; [|done].
  case_bool_decide; [done|].
  destruct (m !! path); (destruct (decide (path = k)) as [->|Hne];
    [rewrite lookup_insert_eq; eauto | by rewrite lookup_insert_ne]).
Qed.

Lemma block_step_other (m : gmap str str) (b : CodeBlock) (k : str) :
  filepath b <> Some k -> block_step m b !! k = m !! k.
Proof.
  intros Hk. unfold block_step.
  destruct (filepath b) as [path|]; [|done].
  case_bool_decide; [done|].
  destruct (m !! path); rewrite lookup_insert_ne; congruence.
Qed.

Lemma fold_block_step_keeps_keys (bs : list CodeBlock) (m : gmap str str) (k : str) :
  is_Some (m !! k) -> is_Some (fold_left block_step bs m !! k).
Proof.
  revert m. induction bs as [|b bs IH]; intros m Hk; simpl; [done|].
  by apply IH, block_step_keeps_keys.
Qed.

Lemma fold_block_step_other (bs : list CodeBlock) (m : gmap str str) (k : str) :
  Forall (fun b => filepath b <> Some k) bs ->
  fold_left block_step bs m !! k = m !! k.
Proof.
  intros Hbs. revert m. induction Hbs as [|b bs Hb _ IH]; intros m; simpl; [done|].
  by rewrite IH, block_step_other.
Qed.

(** ** Properties of the File Reconciler *)

(** C5. The reconciler does not mutate its input: it returns a reference
    that named nothing before the call, so a new dictionary, and after the
    call the input dictionary, like every other one of the store, holds
    exactly the entries it held before. *)
Theorem process_ai_output_pure (w : char -> bool) (ai_output : str) (files : ref)
    (h : store) (m : gmap str str) :
  h !! files = Some m ->
  exists (modified_files : ref) (h' : store),
    process_ai_output w ai_output files h = Some (modified_files, h')
    /\ h !! modified_files = None
    /\ modified_files <> files
    /\ is_Some (h' !! modified_files)
    /\ h' !! files = Some m
    /\ (forall r, r <> modified_files -> h' !! r = h !! r).
Proof.
  intros Hf. eexists _, _. split; [by apply process_ai_output_run|].
  assert (Hfresh := fresh_ref_unused h).
  assert (Hne : fresh (dom h) <> files) by congruence.
  split_and!; [done|done| | |].
  - rewrite lookup_insert_eq. eauto.
  - by rewrite lookup_insert_ne.
  - intros r Hr. by rewrite lookup_insert_ne.
Qed.

Lemma process_ai_output_pure_witness :
  exists (modified_files : ref) (h' : store),
    process_ai_output (fun _ => false)
      (py "```python:f.py\nprint('Hello')\nx = 1\n```") 1%positive
      {[ 1%positive := {[ py "f.py" := py "print('Hello')" ]} ]}
    = Some (modified_files, h')
    /\ ({[ 1%positive := {[ py "f.py" := py "print('Hello')" ]} ]} : store)
        !! modified_files = None
    /\ modified_files <> 1%positive
    /\ is_Some (h' !! modified_files)
    /\ h' !! 1%positive = Some {[ py "f.py" := py "print('Hello')" ]}
    /\ (forall r, r <> modified_files ->
        h' !! r = ({[ 1%positive := {[ py "f.py" := py "print('Hello')" ]} ]} : store) !! r).
Proof.
  apply (process_ai_output_pure (fun _ => false)
           (py "```python:f.py\nprint('Hello')\nx = 1\n```") 1%positive
           {[ 1%positive := {[ py "f.py" := py "print('Hello')" ]} ]}
           {[ py "f.py" := py "print('Hello')" ]}).
  apply lookup_singleton_eq.
Defined.

(** C9. No entry is removed, and an entry that no extracted fragment targets
    keeps its value: every key of the input dictionary is a key of the
    returned one, and a path that is the target of no fragment is mapped in
    the returned dictionary as in the input. *)
Theorem process_ai_output_preserves (w : char -> bool) (ai_output : str)
    (files : ref) (h : store) (m : gmap str str) :
  h !! files = Some m ->
  exists (modified_files : ref) (h' : store) (m' : gmap str str),
    process_ai_output w ai_output files h = Some (modified_files, h')
    /\ h' !! modified_files = Some m'
    /\ (forall k, is_Some (m !! k) -> is_Some (m' !! k))
    /\ (forall k,
          (forall b, b ∈ extract_code_blocks w ai_output -> filepath b <> Some k) ->
          m' !! k = m !! k).
Proof.
  intros Hf. eexists _, _, _. split; [by apply process_ai_output_run|].
  split; [apply lookup_insert_eq|]. split.
  - intros k. apply fold_block_step_keeps_keys.
  - intros k Hk. apply fold_block_step_other. by apply Forall_forall.
Qed.

Lemma process_ai_output_preserves_witness :
  exists (modified_files : ref) (h' : store) (m' : gmap str str),
    process_ai_output (fun _ => false) (py "```python:new.py\nx = 1\n```") 1%positive
      {[ 1%positive := {[ py "f.py" := py "print('Hello')" ]} ]}
    = Some (modified_files, h')
    /\ h' !! modified_files = Some m'
    /\ (forall k, is_Some (({[ py "f.py" := py "print('Hello')" ]} : gmap str str) !! k) ->
                  is_Some (m' !! k))
    /\ (forall k,
          (forall b, b ∈ extract_code_blocks (fun _ => false)
                           (py "```python:new.py\nx = 1\n```") ->
                     filepath b <> Some k) ->
          m' !! k = ({[ py "f.py" := py "print('Hello')" ]} : gmap str str) !! k).
Proof.
  apply (process_ai_output_preserves (fun _ => false)
           (py "```python:new.py\nx = 1\n```") 1%positive
           {[ 1%positive := {[ py "f.py" := py "print('Hello')" ]} ]}
           {[ py "f.py" := py "print('Hello')" ]}).
  vm_compute. reflexivity.
Defined.

(** ** The extractor's matches *)

Lemma plus_greedy_nonempty (X : char -> bool) (s a r : str) :
  (a, r) ∈ plus_greedy X s -> a <> [].
Proof.
  revert a r. induction s as [|c s IH]; intros a r; simpl; [by intros ?%elem_of_nil|].
  destruct (X c); [|by intros ?%elem_of_nil].
  rewrite elem_of_app, list_elem_of_fmap, list_elem_of_singleton.
  intros [([a' r'] & [= -> ->] & _)|[= -> ->]]; discriminate.
Qed.

(** The path group, when it takes part in a match, is not empty. *)
Lemma match_here_path (w : char -> bool) (s g1 p g3 r : str) :
  (g1, Some p, g3, r) ∈ match_here w s -> p <> [].
Proof.
  unfold match_here.
  intros (r1 & H & _)%list_elem_of_bind.
  apply list_elem_of_bind in H as ([g1' r2] & H & _).
  apply list_elem_of_bind in H as ([g2 r3] & H & Hg2).
  apply list_elem_of_bind in H as (r4 & H & _).
  apply list_elem_of_bind in H as ([g3' r5] & H & _).
  apply list_elem_of_bind in H as (r6 & H & _).
  apply list_elem_of_singleton in H. injection H as <- <- <- <-.
  apply elem_of_app in Hg2 as [Hg2|Hg2].
  - apply list_elem_of_bind in Hg2 as (r' & Hg2 & _).
    apply list_elem_of_bind in Hg2 as ([p' r''] & Hg2 & Hp).
    apply list_elem_of_singleton in Hg2. injection Hg2 as -> _.
    by apply plus_greedy_nonempty in Hp.
  - apply list_elem_of_singleton in Hg2. discriminate.
Qed.

Lemma finditer_elem (w : char -> bool) (s : str) :
  forall (k : nat) (g : str * option str * str),
    g ∈ finditer w k s -> exists s' r, head (match_here w s') = Some (g, r).
Proof.
  induction s as [|c s IH]; intros k g; simpl.
  - destruct k; by intros ?%elem_of_nil.
  - destruct k as [|k]; [|by apply IH].
    destruct (head (match_here w (c :: s))) as [[g' r]|] eqn:Hh; [|by apply IH].
    intros [->|Hg]%elem_of_cons; [eauto|by eapply IH].
Qed.

(** A fragment never carries an empty target path. *)
Lemma extract_filepath_nonempty (w : char -> bool) (ai_output : str) (b : CodeBlock) :
  b ∈ extract_code_blocks w ai_output -> filepath b <> Some [].
Proof.
  unfold extract_code_blocks.
  intros ([[g1 g2] g3] & -> & Hg)%list_elem_of_fmap. simpl.
  apply finditer_elem in Hg as (s' & r & Hh).
  apply head_Some_elem_of in Hh. intros ->.
  by apply match_here_path in Hh.
Qed.

Lemma block_step_new (m : gmap str str) (b : CodeBlock) (p : str) :
  filepath b = Some p -> p <> [] -> m !! p = None ->
  block_step m b = <[p := content b]> m.
Proof.
  intros Hp Hne Hm. unfold block_step. rewrite Hp.
  rewrite bool_decide_eq_false_2 by done. by rewrite Hm.
Qed.

(** C6. The new-file path.  When the loop reaches an extracted fragment whose
    target path is not a key of the dictionary as it is then, it stores the
    stripped body of the fragment under that path, as it is: neither
    [parse_code_block] nor [apply_diff] has a part in the value.  So when
    the input dictionary lacks the path and one fragment targets it, the
    returned dictionary maps the path to the body of that fragment. *)
Theorem new_file_inserted (w : char -> bool) (ai_output : str) :
  (forall (b : CodeBlock) (p : str) (l : ref) (h : store) (m : gmap str str),
     b ∈ extract_code_blocks w ai_output ->
     filepath b = Some p ->
     h !! l = Some m ->
     m !! p = None ->
     process_block l b h = Some (tt, <[l := <[p := content b]> m]> h))
  /\ (forall (files : ref) (h : store) (m : gmap str str)
             (pre post : list CodeBlock) (b : CodeBlock) (p : str),
        h !! files = Some m ->
        extract_code_blocks w ai_output = pre ++ b :: post ->
        filepath b = Some p ->
        m !! p = None ->
        (forall b', b' ∈ pre ++ post -> filepath b' <> Some p) ->
        exists (modified_files : ref) (h' : store) (m' : gmap str str),
          process_ai_output w ai_output files h = Some (modified_files, h')
          /\ h' !! modified_files = Some m'
          /\ m' !! p = Some (content b)).
Proof.
  split.
  - intros b p l h m Hb Hp Hl Hm.
    rewrite (process_block_run l b h m Hl). do 3 f_equal.
    apply block_step_new; [done| |done].
    intros ->. by apply (extract_filepath_nonempty _ _ _ Hb).
  - intros files h m pre post b p Hf Hex Hp Hm Hothers.
    eexists _, _, _. split; [by apply process_ai_output_run|].
    split; [apply lookup_insert_eq|].
    assert (Hb : b ∈ extract_code_blocks w ai_output).
    { rewrite Hex. apply elem_of_app. right. left. }
    assert (Hne : p <> []).
    { intros ->. by apply (extract_filepath_nonempty _ _ _ Hb). }
    rewrite Hex, fold_left_app. simpl.
    rewrite fold_block_step_other.
    + rewrite (block_step_new _ b p); [apply lookup_insert_eq|done|done|].
      rewrite fold_block_step_other; [done|].
      apply Forall_forall. intros b' Hb'. apply Hothers, elem_of_app. by left.
    + apply Forall_forall. intros b' Hb'. apply Hothers, elem_of_app. by right.
Qed.

Lemma new_file_inserted_witness :
  exists (modified_files : ref) (h' : store) (m' : gmap str str),
    process_ai_output (fun _ => false)
      (py "Add this file:\n```python:new.py\nx = 1\n```\n") 1%positive
      {[ 1%positive := {[ py "f.py" := py "print('Hello')" ]} ]}
    = Some (modified_files, h')
    /\ h' !! modified_files = Some m'
    /\ m' !! py "new.py" = Some (py "x = 1").
Proof.
  apply (proj2 (new_file_inserted (fun _ => false)
                  (py "Add this file:\n```python:new.py\nx = 1\n```\n"))
           1%positive
           {[ 1%positive := {[ py "f.py" := py "print('Hello')" ]} ]}
           {[ py "f.py" := py "print('Hello')" ]}
           [] [] (mkCodeBlock (py "python") (Some (py "new.py")) (py "x = 1"))
           (py "new.py")).
  - vm_compute. reflexivity.
  - vm_compute. reflexivity.
  - reflexivity.
  - vm_compute. reflexivity.
  - intros b' Hb'. simpl in Hb'. by apply elem_of_nil in Hb'.
Defined.

Lemma lit_app (p s : str) : lit p (p ++ s) = [s].
Proof.
  unfold lit. rewrite take_app_length, drop_app_length.
  by rewrite bool_decide_eq_true_2.
Qed.

Lemma lit_head_ne (c0 c : char) (p s : str) : c <> c0 -> lit (c0 :: p) (c :: s) = [].
Proof.
  intros Hc. unfold lit. simpl. rewrite bool_decide_eq_false_2; [done|]. congruence.
Qed.

Lemma match_here_no_fence (w : char -> bool) (c : char) (s : str) :
  c <> BACKTICK -> match_here w (c :: s) = [].
Proof.
  intros Hc. unfold match_here.
  change FENCE with (BACKTICK :: [BACKTICK; BACKTICK]).
  by rewrite lit_head_ne.
Qed.

Lemma finditer_no_backtick (w : char -> bool) (s : str) (k : nat) :
  Forall (fun c => c <> BACKTICK) s -> finditer w k s = [].
Proof.
  intros Hs. revert k. induction Hs as [|c s Hc _ IH]; intros [|k]; simpl; try done.
  rewrite match_here_no_fence by done. apply IH.
Qed.

Lemma finditer_prefix (w : char -> bool) (pre s : str) :
  Forall (fun c => c <> BACKTICK) pre ->
  finditer w 0 (pre ++ s) = finditer w 0 s.
Proof.
  induction 1 as [|c pre Hc _ IH]; simpl; [done|].
  rewrite match_here_no_fence by done. apply IH.
Qed.

Lemma finditer_skip (w : char -> bool) (a s : str) :
  finditer w (length a) (a ++ s) = finditer w 0 s.
Proof. induction a as [|c a IH]; simpl; [by destruct s|done]. Qed.

Lemma bind_first {A B} (f : A -> list B) (l : list A) (y : A) (x : B) :
  (exists tl, l = y :: tl) -> (exists tl, f y = x :: tl) ->
  exists tl, l ≫= f = x :: tl.
Proof.
  intros [tl ->] [tl' Hy]. rewrite bind_cons, Hy. simpl. eauto.
Qed.

(** The greedy run stops first at the end of the longest run. *)
Lemma plus_greedy_longest (X : char -> bool) (a : str) (c : char) (rest : str) :
  a <> [] -> Forall (fun x => X x = true) a -> X c = false ->
  exists tl, plus_greedy X (a ++ c :: rest) = (a, c :: rest) :: tl.
Proof.
  intros Hne Ha Hc. induction Ha as [|x a Hx Ha IH]; [done|].
  simpl. rewrite Hx. destruct a as [|y a].
  - simpl. rewrite Hc. simpl. eauto.
  - destruct IH as [tl IH]; [done|]. rewrite IH. simpl. eauto.
Qed.

(** The lazy run over a body without backticks stops first at the fence. *)
Lemma star_lazy_body {B} (K : str -> str -> B) (body post : str) :
  Forall (fun c => c <> BACKTICK) body ->
  forall acc : str,
  exists tl,
    (star_lazy dot (body ++ FENCE ++ post)
       ≫= λ '(g3, r5), r6 ← lit FENCE r5; [K (acc ++ g3) r6])
    = K (acc ++ body) post :: tl.
Proof.
  induction 1 as [|c body Hc _ IH]; intros acc.
  - change ([] ++ FENCE ++ post) with (BACKTICK :: BACKTICK :: BACKTICK :: post).
    simpl star_lazy. rewrite bind_cons.
    change (BACKTICK :: BACKTICK :: BACKTICK :: post) with (FENCE ++ post).
    rewrite lit_app, bind_singleton. simpl. eauto.
  - change ((c :: body) ++ FENCE ++ post) with (c :: (body ++ FENCE ++ post)).
    simpl star_lazy. rewrite bind_cons.
    change FENCE with (BACKTICK :: [BACKTICK; BACKTICK]) at 1.
    rewrite lit_head_ne by done.
    change (BACKTICK :: [BACKTICK; BACKTICK]) with FENCE.
    rewrite list_fmap_bind. simpl.
    destruct (IH (acc ++ [c])) as [tl IHtl].
    exists tl. rewrite <- app_assoc in IHtl. simpl in IHtl. rewrite <- IHtl.
    apply list_bind_ext; [|done]. intros [a r]. simpl.
    by rewrite <- app_assoc.
Qed.

Lemma not_word_colon (w : char -> bool) : is_word w 58%N = false.
Proof. reflexivity. Qed.

Lemma not_word_newline (w : char -> bool) : is_word w NL = false.
Proof. reflexivity. Qed.

(** A well-formed block is matched where it stands, whatever follows it. *)
Lemma match_here_block (w : char -> bool) (lang : str) (path : option str)
    (body post : str) :
  lang <> [] -> Forall (fun c => is_word w c = true) lang ->
  match path with
  | Some p => p <> [] /\ Forall (fun c => c <> NL) p
  | None => True
  end ->
  Forall (fun c => c <> BACKTICK) body ->
  exists tl,
    match_here w (FENCE ++ header lang path ++ [NL] ++ body ++ FENCE ++ post)
    = (lang, path, body, post) :: tl.
Proof.
  intros Hne Hlang Hpath Hbody. unfold match_here.
  rewrite lit_app, bind_singleton.
  destruct path as [p|]; unfold header.
  - destruct Hpath as [Hp Hpnl].
    rewrite <- !app_assoc.
    change (py ":" ++ p ++ [NL] ++ body ++ FENCE ++ post)
      with (58%N :: ([] ++ p ++ NL :: body ++ FENCE ++ post)).
    eapply bind_first.
    { apply plus_greedy_longest; [done|done|apply not_word_colon]. }
    cbv beta iota.
    change (py ":") with [58%N].
    change (58%N :: ([] ++ p ++ NL :: body ++ FENCE ++ post))
      with ([58%N] ++ (p ++ NL :: body ++ FENCE ++ post)).
    rewrite lit_app, bind_singleton.
    destruct (plus_greedy_longest not_newline p NL (body ++ FENCE ++ post))
      as [tl Htl]; [done| |by vm_compute|].
    { eapply Forall_impl; [exact Hpnl|]. intros c Hc. simpl.
      unfold not_newline. apply negb_true_iff, N.eqb_neq. done. }
    rewrite Htl, bind_cons. cbv beta iota.
    rewrite <- app_assoc, bind_app, bind_singleton. cbv beta iota.
    change (NL :: body ++ FENCE ++ post) with ([NL] ++ body ++ FENCE ++ post).
    rewrite lit_app, bind_singleton.
    destruct (star_lazy_body (fun g3 r6 => (lang, Some p, g3, r6)) body post Hbody [])
      as [tl' Htl'].
    eexists. etransitivity; [exact (f_equal (fun l => l ++ _) Htl')|reflexivity].
  - rewrite app_nil_r.
    change ([NL] ++ body ++ FENCE ++ post) with (NL :: body ++ FENCE ++ post).
    eapply bind_first.
    { apply plus_greedy_longest; [done|done|apply not_word_newline]. }
    cbv beta iota.
    change (py ":") with [58%N].
    rewrite lit_head_ne by (by vm_compute).
    change (([] : list str) ≫= λ r : str,
              plus_greedy not_newline r ≫= λ '(p0, r'), [(Some p0, r')])
      with ([] : list (option str * str)).
    rewrite app_nil_l, bind_singleton.
    change (NL :: body ++ FENCE ++ post) with ([NL] ++ body ++ FENCE ++ post).
    rewrite lit_app, bind_singleton.
    destruct (star_lazy_body (fun g3 r6 => (lang, @None str, g3, r6)) body post Hbody [])
      as [tl' Htl'].
    eexists. exact Htl'.
Qed.

Lemma finditer_match (w : char -> bool) (c : char) (t : str)
    (g : str * option str * str) (rest : str) :
  head (match_here w (c :: t)) = Some (g, rest) ->
  finditer w 0 (c :: t) = g :: finditer w (length (c :: t) - length rest - 1) t.
Proof. intros H. simpl. by rewrite H. Qed.

(** ** Properties of the Block Extractor *)

(** C8, as stated, fails: in the text below both occurrences of the three
    backticks stand mid-line, and a fragment is extracted all the same. *)
Lemma midline_fence_counterexample :
  (forall p, fence_at (py "x```py\na```") p = true ->
             line_start (py "x```py\na```") p = false)
  /\ (forall w, extract_code_blocks w (py "x```py\na```")
                = [mkCodeBlock (py "py") None (py "a")]).
Proof.
  split.
  - intros p. do 12 (destruct p as [|p]; [vm_compute; congruence|]).
    vm_compute. congruence.
  - intros w. vm_compute. reflexivity.
Qed.

(** C8, amended.  Fence recognition is not anchored to the start of a line:
    after any text without backticks, whether it ends a line or not, three
    backticks followed by a language of word characters, an optional colon
    and path, a line feed, a body without backticks and three backticks
    give exactly one fragment, with that language, that path and the body
    stripped. *)
Theorem fence_recognized_anywhere (w : char -> bool)
    (pre lang body post : str) (path : option str) :
  Forall (fun c => c <> BACKTICK) pre ->
  lang <> [] -> Forall (fun c => is_word w c = true) lang ->
  match path with
  | Some p => p <> [] /\ Forall (fun c => c <> NL) p
  | None => True
  end ->
  Forall (fun c => c <> BACKTICK) body ->
  Forall (fun c => c <> BACKTICK) post ->
  extract_code_blocks w
    (pre ++ FENCE ++ header lang path ++ [NL] ++ body ++ FENCE ++ post)
  = [mkCodeBlock lang path (strip body)].
Proof.
  intros Hpre Hne Hlang Hpath Hbody Hpost. unfold extract_code_blocks.
  rewrite finditer_prefix by done.
  destruct (match_here_block w lang path body post Hne Hlang Hpath Hbody)
    as [tl Hm].
  set (inner := [BACKTICK; BACKTICK] ++ header lang path ++ [NL] ++ body ++ FENCE).
  assert (Htext : FENCE ++ header lang path ++ [NL] ++ body ++ FENCE ++ post
                  = BACKTICK :: (inner ++ post)).
  { unfold inner. change FENCE with (BACKTICK :: [BACKTICK; BACKTICK]) at 1.
    by rewrite <- !app_assoc. }
  rewrite Htext in Hm |- *.
  rewrite (finditer_match w _ _ (lang, path, body) post) by (by rewrite Hm).
  replace (length (BACKTICK :: inner ++ post) - length post - 1) with (length inner)
    by (change (length (BACKTICK :: inner ++ post)) with (S (length (inner ++ post)));
        rewrite length_app; lia).
  rewrite finditer_skip, finditer_no_backtick by done.
  reflexivity.
Qed.

Lemma fence_recognized_anywhere_witness :
  extract_code_blocks (fun _ => false)
    (py "see " ++ FENCE ++ header (py "python") (Some (py "f.py")) ++ [NL]
     ++ py " x = 1 " ++ FENCE ++ py " then")
  = [mkCodeBlock (py "python") (Some (py "f.py")) (strip (py " x = 1 "))].
Proof.
  apply (fence_recognized_anywhere (fun _ => false)
           (py "see ") (py "python") (py " x = 1 ") (py " then") (Some (py "f.py"))).
  - vm_compute. repeat constructor; discriminate.
  - vm_compute. discriminate.
  - vm_compute. repeat constructor.
  - split; [vm_compute; discriminate|]. vm_compute. repeat constructor; discriminate.
  - vm_compute. repeat constructor; discriminate.
  - vm_compute. repeat constructor; discriminate.
Defined.

(** C2.  The scenario evaluated on the code: the line of the block and the
    line of the file differ, so no window holds a line of the segment and
    the file keeps its content ["print('Hello')"]. *)
Theorem end_to_end_scenario (w : char -> bool) :
  apply_diff (py "print('Hello')") (py "print('Hello, World!')") = py "print('Hello')"
  /\ exists (modified_files : ref) (h' : store) (m' : gmap str str),
       process_ai_output w (py "```python:f.py\nprint('Hello, World!')\n```") 1%positive
         {[ 1%positive := {[ py "f.py" := py "print('Hello')" ]} ]}
       = Some (modified_files, h')
       /\ h' !! modified_files = Some m'
       /\ m' !! py "f.py" = Some (py "print('Hello')")
       /\ m' !! py "f.py" <> Some (py "print('Hello, World!')").
Proof.
  split; [vm_compute; reflexivity|].
  eexists _, _, _. split.
  { apply (process_ai_output_run w _ _ _ {[ py "f.py" := py "print('Hello')" ]}).
    vm_compute. reflexivity. }
  split; [apply lookup_insert_eq|].
  assert (H : fold_left block_step
                (extract_code_blocks w (py "```python:f.py\nprint('Hello, World!')\n```"))
                ({[ py "f.py" := py "print('Hello')" ]} : gmap str str)
              !! py "f.py" = Some (py "print('Hello')")).
  { vm_compute. reflexivity. }
  split; [exact H|]. rewrite H. vm_compute. discriminate.
Qed.

(** ** Further properties of the merger *)

Lemma in_window_elem (original_lines new_lines : list str) (i : nat) (line : str) :
  in_window original_lines new_lines i line = true -> line ∈ original_lines.
Proof.
  unfold in_window, slice. intros H%bool_decide_eq_true.
  apply subseteq_take in H. by apply subseteq_drop in H.
Qed.

Lemma window_match_common (original_lines new_lines : list str) (i : nat) :
  window_match original_lines new_lines i = true ->
  exists line, line ∈ new_lines /\ line ∈ original_lines.
Proof.
  unfold window_match. intros (line & Hin & Hw)%existsb_exists.
  exists line. split; [by apply list_elem_of_In|by eapply in_window_elem].
Qed.

(** A segment none of whose lines is a line of the file never changes the
    lines of the file: the result is their join on line feeds. *)
Theorem apply_diff_disjoint (original_code new_content : str) :
  (forall line, line ∈ splitlines new_content -> line ∉ splitlines original_code) ->
  apply_diff original_code new_content = join [NL] (splitlines original_code).
Proof.
  intros Hdis. apply apply_diff_no_match. intros i _.
  destruct (window_match _ _ i) eqn:Hw; [|done].
  apply window_match_common in Hw as (line & Hn & Ho). by destruct (Hdis line Hn).
Qed.

Lemma apply_diff_disjoint_witness :
  apply_diff (py "print('Hello')\nx = 1") (py "print('Hello, World!')")
  = join [NL] (splitlines (py "print('Hello')\nx = 1")).
Proof.
  apply (apply_diff_disjoint (py "print('Hello')\nx = 1") (py "print('Hello, World!')")).
  intros line Hl. vm_compute in Hl. apply list_elem_of_singleton in Hl. subst line.
  intros H. vm_compute in H.
  repeat (apply elem_of_cons in H as [H|H]; [discriminate H|]).
  by apply elem_of_nil in H.
Defined.

(** Whole-file replace: a segment with at least as many lines as a non-empty
    file, and with one line in common with it, replaces the whole file. *)
Theorem apply_diff_whole_file (original_code new_content : str) (line : str) :
  original_code <> [] ->
  length (splitlines original_code) <= length (splitlines new_content) ->
  line ∈ splitlines original_code -> line ∈ splitlines new_content ->
  apply_diff original_code new_content = join [NL] (splitlines new_content).
Proof.
  intros Hne Hlen Ho Hn.
  rewrite (apply_diff_at_first _ _ 0).
  - unfold slice_assign. simpl. by rewrite drop_ge, app_nil_r.
  - apply splitlines_nonempty in Hne.
    destruct (splitlines original_code); [done|simpl; lia].
  - unfold window_match. apply existsb_exists. exists line.
    split; [by apply list_elem_of_In|].
    unfold in_window, slice. apply bool_decide_eq_true.
    by rewrite drop_0, take_ge.
  - intros k Hk. lia.
Qed.

Lemma apply_diff_whole_file_witness :
  apply_diff (py "import os\nx = 1\n") (py "import os\nimport sys\nx = 2")
  = join [NL] (splitlines (py "import os\nimport sys\nx = 2")).
Proof.
  apply (apply_diff_whole_file (py "import os\nx = 1\n")
           (py "import os\nimport sys\nx = 2") (py "import os")).
  - vm_compute. discriminate.
  - vm_compute. lia.
  - vm_compute. left.
  - vm_compute. left.
Defined.

(** A one-line segment that is already a line of the file changes no line:
    the line is put where it first stands. *)
Theorem apply_diff_single_line (original_code new_content : str) (line : str) :
  splitlines new_content = [line] ->
  line ∈ splitlines original_code ->
  apply_diff original_code new_content = join [NL] (splitlines original_code).
Proof.
  intros Hn Ho.
  apply list_elem_of_split_l in Ho as (pre & post & Hsplit & Hpre).
  rewrite (apply_diff_at_first _ _ (length pre)).
  - f_equal. unfold slice_assign. rewrite Hn, Hsplit. simpl.
    rewrite take_app_length. f_equal.
    rewrite <- drop_drop, drop_app_length. reflexivity.
  - rewrite Hsplit, length_app. simpl. lia.
  - rewrite Hn. unfold window_match. simpl. apply orb_true_iff. left.
    unfold in_window, slice. apply bool_decide_eq_true.
    rewrite Hsplit, drop_app_length. simpl. left.
  - intros k Hk. rewrite Hn. unfold window_match. simpl. rewrite orb_false_r.
    unfold in_window, slice. apply bool_decide_eq_false. simpl.
    intros Hin. apply Hpre.
    apply elem_of_take in Hin as (j & Hj & Hj1).
    assert (j = 0) as -> by lia.
    rewrite lookup_drop, Nat.add_0_r, Hsplit, lookup_app_l in Hj by done.
    by eapply list_elem_of_lookup_2.
Qed.

Lemma apply_diff_single_line_witness :
  apply_diff (py "a\nb\nc\nb") (py "b") = join [NL] (splitlines (py "a\nb\nc\nb")).
Proof.
  apply (apply_diff_single_line (py "a\nb\nc\nb") (py "b") (py "b")).
  - vm_compute. reflexivity.
  - vm_compute. right. left.
Defined.

(** ** Further properties of the segmenter *)

Lemma parse_code_block_flush (block_content : str) :
  parse_code_block block_content
  = flush (fold_left seg_step (splitlines block_content) (SegState [] [] false)).
Proof. reflexivity. Qed.

Lemma fold_seg_step_markers (lines : list str) (chs : list change) (flag : bool) :
  Forall (fun l => is_marker l = true) lines ->
  flush (fold_left seg_step lines (SegState chs [] flag)) = chs.
Proof.
  intros Hm. revert flag. induction Hm as [|l lines Hl _ IH]; intros flag; simpl.
  - reflexivity.
  - unfold seg_step at 2. rewrite Hl. simpl. rewrite andb_false_r. apply IH.
Qed.

(** A body made of elision markers only gives no segment. *)
Theorem parse_code_block_markers_only (block_content : str) :
  Forall (fun l => is_marker l = true) (splitlines block_content) ->
  parse_code_block block_content = [].
Proof. intros Hm. rewrite parse_code_block_flush. by apply fold_seg_step_markers. Qed.

Lemma parse_code_block_markers_only_witness :
  parse_code_block (py "// existing code...\n  # ...  \n...\n// rest of the file") = [].
Proof.
  apply (parse_code_block_markers_only
           (py "// existing code...\n  # ...  \n...\n// rest of the file")).
  vm_compute. repeat constructor.
Defined.

Lemma seg_step_inv (st : seg_state) (line : str) : seg_inv st -> seg_inv (seg_step st line).
Proof.
  unfold seg_inv, seg_step. intros Hinv.
  destruct (is_marker line); [|done].
  destruct (in_change_section st) eqn:Hf; simpl.
  - case_bool_decide; simpl; done.
  - intros Hc. by apply Hinv in Hc.
Qed.

Lemma fold_seg_step_inv (lines : list str) (st : seg_state) :
  seg_inv st -> seg_inv (fold_left seg_step lines st).
Proof.
  revert st. induction lines as [|l lines IH]; intros st Hinv; simpl; [done|].
  by apply IH, seg_step_inv.
Qed.

Lemma seg_step_marker (st : seg_state) (line : str) :
  seg_inv st -> is_marker line = true ->
  seg_step st line = SegState (flush st) [] false.
Proof.
  unfold seg_inv, seg_step, flush. intros Hinv ->.
  case_bool_decide as Hc; simpl.
  - rewrite andb_false_r. destruct st; simpl in *. by subst.
  - by rewrite Hinv.
Qed.

Lemma seg_step_prefix (c0 chs : list change) (cur : list str) (flag : bool)
    (line : str) :
  seg_step (SegState (c0 ++ chs) cur flag) line
  = let st := seg_step (SegState chs cur flag) line in
    SegState (c0 ++ changes st) (current_section st) (in_change_section st).
Proof.
  unfold seg_step. simpl. destruct (is_marker line); [|done].
  destruct (flag && negb (bool_decide (cur = []))); simpl; [|done].
  by rewrite app_assoc.
Qed.

Lemma fold_seg_step_prefix (lines : list str) (c0 chs : list change)
    (cur : list str) (flag : bool) :
  fold_left seg_step lines (SegState (c0 ++ chs) cur flag)
  = let st := fold_left seg_step lines (SegState chs cur flag) in
    SegState (c0 ++ changes st) (current_section st) (in_change_section st).
Proof.
  revert chs cur flag. induction lines as [|l lines IH]; intros chs cur flag; simpl.
  - reflexivity.
  - rewrite seg_step_prefix.
    destruct (seg_step (SegState chs cur flag) l) as [chs' cur' flag']. apply IH.
Qed.

Lemma flush_fold_prefix (lines : list str) (c0 : list change) (flag : bool) :
  flush (fold_left seg_step lines (SegState c0 [] flag))
  = c0 ++ flush (fold_left seg_step lines (SegState [] [] false)).
Proof.
  assert (Hflag : forall f chs,
    flush (fold_left seg_step lines (SegState chs [] f))
    = flush (fold_left seg_step lines (SegState chs [] false))).
  { intros f chs. destruct lines as [|l lines]; [done|]. simpl.
    unfold seg_step at 2 4. simpl. by rewrite !andb_false_r. }
  rewrite Hflag.
  rewrite <- (app_nil_r c0) at 1. rewrite fold_seg_step_prefix. simpl.
  unfold flush. simpl. destruct (negb _); [by rewrite app_assoc|done].
Qed.

(** A marker line separates: the segments of a body whose lines are those of
    a first body, a marker line and those of a second body are the segments
    of the first followed by the segments of the second; no segment spans
    the marker. *)
Theorem parse_code_block_split (block_content before after : str) (marker : str) :
  is_marker marker = true ->
  splitlines block_content = splitlines before ++ marker :: splitlines after ->
  parse_code_block block_content = parse_code_block before ++ parse_code_block after.
Proof.
  intros Hm Hlines. rewrite !parse_code_block_flush, Hlines.
  rewrite fold_left_app. simpl.
  rewrite seg_step_marker; [apply flush_fold_prefix| |done].
  apply fold_seg_step_inv. by intros ?.
Qed.

Lemma parse_code_block_split_witness :
  parse_code_block (py "import os\n# ...\ndef f():\n    pass")
  = parse_code_block (py "import os") ++ parse_code_block (py "def f():\n    pass").
Proof.
  apply (parse_code_block_split (py "import os\n# ...\ndef f():\n    pass")
           (py "import os") (py "def f():\n    pass") (py "# ...")).
  - vm_compute. reflexivity.
  - vm_compute. reflexivity.
Defined.

Lemma fold_seg_step_runs (lines : list str) :
  forall (rs : list (list str)) (cur : list str) (flag : bool),
    (cur <> [] -> flag = true) ->
    Forall (fun r => r <> []) rs ->
    exists (rs' : list (list str)) (cur' : list str) (flag' : bool),
      fold_left seg_step lines (SegState (segment <$> rs) cur flag)
      = SegState (segment <$> rs') cur' flag'
      /\ Forall (fun r => r <> []) rs'
      /\ concat rs' ++ cur'
         = concat rs ++ cur ++ filter (fun l => is_marker l = false) lines.
Proof.
  induction lines as [|l lines IH]; intros rs cur flag Hinv Hrs; simpl.
  - exists rs, cur, flag. by rewrite app_nil_r.
  - unfold seg_step at 2. simpl. destruct (is_marker l) eqn:Hl.
    + rewrite filter_cons_False by (by rewrite Hl).
      destruct cur as [|c cur].
      * rewrite andb_false_r. apply IH; done.
      * rewrite Hinv by done. simpl.
        destruct (IH (rs ++ [c :: cur]) [] false) as (rs' & cur' & flag' & H1 & H2 & H3);
          [done|apply Forall_app; split; [done|by constructor]|].
        exists rs', cur', flag'. split_and!; [|done|].
        -- rewrite <- H1. by rewrite fmap_app.
        -- rewrite H3, concat_app. simpl. by rewrite app_nil_r, <- app_assoc.
    + rewrite filter_cons_True by done.
      destruct (IH rs (cur ++ [l]) true) as (rs' & cur' & flag' & H1 & H2 & H3);
        [done|done|].
      exists rs', cur', flag'. split_and!; [done|done|].
      rewrite H3. by rewrite <- !app_assoc.
Qed.

(** The segments are the runs of literal lines: every segment is the join of
    a non-empty run of lines, and the runs, one after the other, are exactly
    the lines of the body that are not markers, in their order. *)
Theorem parse_code_block_runs (block_content : str) :
  exists runs : list (list str),
    parse_code_block block_content = segment <$> runs
    /\ Forall (fun r => r <> []) runs
    /\ concat runs = filter (fun l => is_marker l = false) (splitlines block_content).
Proof.
  rewrite parse_code_block_flush.
  destruct (fold_seg_step_runs (splitlines block_content) [] [] false)
    as (rs & cur & flag & H1 & H2 & H3); [done|done|].
  change (SegState [] [] false) with (SegState (segment <$> []) [] false).
  rewrite H1. unfold flush. simpl in *. destruct cur as [|c cur]; simpl.
  - exists rs. by rewrite app_nil_r in H3.
  - exists (rs ++ [c :: cur]). split_and!.
    + by rewrite fmap_app.
    + apply Forall_app. split; [done|by constructor].
    + rewrite concat_app. simpl. by rewrite app_nil_r.
Qed.

(** ** Further properties of the extractor *)

Lemma lit_elem (p s r : str) : r ∈ lit p s -> s = p ++ r.
Proof.
  unfold lit. case_bool_decide as Hp; [|by intros ?%elem_of_nil].
  intros ->%list_elem_of_singleton. by rewrite <- Hp at 1; rewrite take_drop.
Qed.

Lemma plus_greedy_elem (X : char -> bool) (s a r : str) :
  (a, r) ∈ plus_greedy X s ->
  s = a ++ r /\ a <> [] /\ Forall (fun c => X c = true) a.
Proof.
  revert a r. induction s as [|c s IH]; intros a r; simpl; [by intros ?%elem_of_nil|].
  destruct (X c) eqn:Hc; [|by intros ?%elem_of_nil].
  rewrite elem_of_app, list_elem_of_fmap, list_elem_of_singleton.
  intros [([a' r'] & [= -> ->] & (-> & _ & Ha)%IH)|[= -> ->]]; simpl.
  - split_and!; [done|done|by constructor].
  - split_and!; [done|done|by repeat constructor].
Qed.

Lemma star_lazy_elem (X : char -> bool) (s a r : str) :
  (a, r) ∈ star_lazy X s -> s = a ++ r.
Proof.
  revert a r. induction s as [|c s IH]; intros a r; simpl.
  - by intros [= -> ->]%list_elem_of_singleton.
  - rewrite elem_of_cons. intros [[= -> ->]|H]; [done|].
    destruct (X c); [|by apply elem_of_nil in H].
    apply list_elem_of_fmap in H as ([a' r'] & [= -> ->] & ->%IH). done.
Qed.

(** The shape of a matched text: the two fences, the groups and the rest. *)
Lemma match_here_elem (w : char -> bool) (s g1 g3 r : str) (g2 : option str) :
  (g1, g2, g3, r) ∈ match_here w s ->
  s = FENCE ++ header g1 g2 ++ [NL] ++ g3 ++ FENCE ++ r
  /\ g1 <> [] /\ Forall (fun c => is_word w c = true) g1
  /\ (forall p, g2 = Some p -> p <> [] /\ Forall (fun c => c <> NL) p).
Proof.
  unfold match_here.
  intros (r1 & H & E1%lit_elem)%list_elem_of_bind.
  apply list_elem_of_bind in H as ([g1' r2] & H & (E2 & Hg1 & Hw)%plus_greedy_elem).
  apply list_elem_of_bind in H as ([g2' r3] & H & Hg2).
  apply list_elem_of_bind in H as (r4 & H & E3%lit_elem).
  apply list_elem_of_bind in H as ([g3' r5] & H & E4%star_lazy_elem).
  apply list_elem_of_bind in H as (r6 & H & E5%lit_elem).
  apply list_elem_of_singleton in H. injection H as <- <- <- <-.
  apply elem_of_app in Hg2 as [Hg2|Hg2].
  - apply list_elem_of_bind in Hg2 as (r' & Hg2 & E6%lit_elem).
    apply list_elem_of_bind in Hg2 as ([p' r''] & Hg2 & (E7 & Hp & Hnl)%plus_greedy_elem).
    apply list_elem_of_singleton in Hg2. injection Hg2 as -> ->.
    split_and!; [|done|done|].
    + unfold header. rewrite E1, E2, E6, E7, E3, E4, E5. by rewrite <- !app_assoc.
    + intros p [= <-]. split; [done|].
      eapply Forall_impl; [exact Hnl|]. intros c Hc. simpl in Hc.
      unfold not_newline in Hc. by apply negb_true_iff, N.eqb_neq in Hc.
  - apply list_elem_of_singleton in Hg2. injection Hg2 as -> ->.
    split_and!; [|done|done|done].
    unfold header. rewrite E1, E2, E3, E4, E5. by rewrite app_nil_r, <- ?app_assoc.
Qed.

Lemma match_here_needs_fence (w : char -> bool) (s : str) :
  fence_at s 0 = false -> match_here w s = [].
Proof.
  unfold fence_at, match_here, lit. rewrite drop_0.
  change (length FENCE) with 3. by intros ->.
Qed.

Lemma finditer_nil (w : char -> bool) (s : str) :
  (forall k, match_here w (drop k s) = []) ->
  forall skip, finditer w skip s = [].
Proof.
  induction s as [|c s IH]; intros Hno skip; [by destruct skip|].
  assert (Hs : forall skip', finditer w skip' s = []).
  { apply IH. intros k. apply (Hno (S k)). }
  destruct skip; simpl; [|apply Hs].
  specialize (Hno 0). rewrite drop_0 in Hno. rewrite Hno. apply Hs.
Qed.

(** A text in which the three backticks occur nowhere has no fragment. *)
Theorem extract_no_fence (w : char -> bool) (ai_output : str) :
  (forall p, fence_at ai_output p = false) ->
  extract_code_blocks w ai_output = [].
Proof.
  intros Hno. unfold extract_code_blocks. rewrite finditer_nil; [done|].
  intros k. apply match_here_needs_fence.
  specialize (Hno k). unfold fence_at in *. by rewrite drop_0.
Qed.

Lemma extract_no_fence_witness :
  extract_code_blocks (fun _ => false) (py "call `f` or ``g``") = [].
Proof.
  apply (extract_no_fence (fun _ => false) (py "call `f` or ``g``")).
  intros p. do 18 (destruct p as [|p]; [vm_compute; reflexivity|]).
  vm_compute. reflexivity.
Defined.

Lemma backticks_app (a b : str) : backticks (a ++ b) = backticks a + backticks b.
Proof. unfold backticks, str. by rewrite filter_app, length_app. Qed.

Lemma backticks_drop (k : nat) (s : str) : backticks (drop k s) <= backticks s.
Proof. rewrite <- (take_drop k s) at 2. rewrite backticks_app. lia. Qed.

(** A fragment needs an opening and a closing fence: a text with fewer than
    six backticks, such as one whose only fence is never closed, has no
    fragment. *)
Theorem extract_few_backticks (w : char -> bool) (ai_output : str) :
  backticks ai_output < 6 -> extract_code_blocks w ai_output = [].
Proof.
  intros Hfew. unfold extract_code_blocks. rewrite finditer_nil; [done|].
  intros k. apply elem_of_nil_inv. intros [[[g1 g2] g3] r] Hin.
  apply match_here_elem in Hin as (Hs & _).
  assert (Hk := backticks_drop k ai_output). rewrite Hs in Hk.
  rewrite !backticks_app in Hk. change (backticks FENCE) with 3 in Hk. lia.
Qed.

Lemma extract_few_backticks_witness :
  extract_code_blocks (fun _ => false) (py "Try:\n```python:f.py\nprint(1)\n") = [].
Proof.
  apply (extract_few_backticks (fun _ => false) (py "Try:\n```python:f.py\nprint(1)\n")).
  vm_compute. lia.
Defined.

Lemma finditer_few_backticks (w : char -> bool) (s : str) (skip : nat) :
  backticks s < 6 -> finditer w skip s = [].
Proof.
  intros Hfew. apply finditer_nil.
  intros k. apply elem_of_nil_inv. intros [[[g1 g2] g3] r] Hin.
  apply match_here_elem in Hin as (Hs & _).
  assert (Hk := backticks_drop k s). rewrite Hs in Hk.
  rewrite !backticks_app in Hk. change (backticks FENCE) with 3 in Hk. lia.
Qed.

Lemma backticks_none (s : str) : Forall (fun c => c <> BACKTICK) s -> backticks s = 0.
Proof.
  unfold backticks, str. induction 1 as [|c s Hc _ IH]; [done|].
  by rewrite filter_cons_False.
Qed.

Lemma finditer_step_nil (w : char -> bool) (c : char) (t : str) :
  match_here w (c :: t) = [] -> finditer w 0 (c :: t) = finditer w 0 t.
Proof. intros H. simpl. by rewrite H. Qed.

Lemma match_here_no_lang (w : char -> bool) (c : char) (t : str) :
  is_word w c = false -> match_here w (FENCE ++ c :: t) = [].
Proof.
  intros Hc. unfold match_here. rewrite lit_app, bind_singleton.
  simpl plus_greedy. by rewrite Hc.
Qed.

(** Fragments come in the order of the text: after any text without
    backticks, a well-formed block with a body without backticks gives its
    fragment, followed by the fragments of the text after its closing
    fence. *)
Theorem extract_block_then_rest (w : char -> bool)
    (pre lang body rest : str) (path : option str) :
  Forall (fun c => c <> BACKTICK) pre ->
  lang <> [] -> Forall (fun c => is_word w c = true) lang ->
  match path with
  | Some p => p <> [] /\ Forall (fun c => c <> NL) p
  | None => True
  end ->
  Forall (fun c => c <> BACKTICK) body ->
  extract_code_blocks w
    (pre ++ FENCE ++ header lang path ++ [NL] ++ body ++ FENCE ++ rest)
  = mkCodeBlock lang path (strip body) :: extract_code_blocks w rest.
Proof.
  intros Hpre Hne Hlang Hpath Hbody. unfold extract_code_blocks.
  rewrite finditer_prefix by done.
  destruct (match_here_block w lang path body rest Hne Hlang Hpath Hbody)
    as [tl Hm].
  set (inner := [BACKTICK; BACKTICK] ++ header lang path ++ [NL] ++ body ++ FENCE).
  assert (Htext : FENCE ++ header lang path ++ [NL] ++ body ++ FENCE ++ rest
                  = BACKTICK :: (inner ++ rest)).
  { unfold inner. change FENCE with (BACKTICK :: [BACKTICK; BACKTICK]) at 1.
    by rewrite <- !app_assoc. }
  rewrite Htext in Hm |- *.
  rewrite (finditer_match w _ _ (lang, path, body) rest) by (by rewrite Hm).
  replace (length (BACKTICK :: inner ++ rest) - length rest - 1) with (length inner)
    by (change (length (BACKTICK :: inner ++ rest)) with (S (length (inner ++ rest)));
        rewrite length_app; lia).
  by rewrite finditer_skip.
Qed.

Lemma extract_block_then_rest_witness :
  extract_code_blocks (fun _ => false)
    (py "First:\n" ++ FENCE ++ header (py "python") (Some (py "a.py")) ++ [NL]
     ++ py "x = 1\n" ++ FENCE ++ py "\nthen\n```js:b.js\nlet y;\n```\n")
  = mkCodeBlock (py "python") (Some (py "a.py")) (strip (py "x = 1\n"))
    :: extract_code_blocks (fun _ => false) (py "\nthen\n```js:b.js\nlet y;\n```\n").
Proof.
  apply (extract_block_then_rest (fun _ => false)
           (py "First:\n") (py "python") (py "x = 1\n")
           (py "\nthen\n```js:b.js\nlet y;\n```\n") (Some (py "a.py"))).
  - vm_compute. repeat constructor; discriminate.
  - vm_compute. discriminate.
  - vm_compute. repeat constructor.
  - split; [vm_compute; discriminate|]. vm_compute. repeat constructor; discriminate.
  - vm_compute. repeat constructor; discriminate.
Defined.

(** A fence without a language tag opens no fragment: when the opening
    backticks are followed by a character that is no word character, such as
    a line feed or a space, nothing is extracted. *)
Theorem extract_no_language (w : char -> bool) (pre body post : str) (c : char) :
  Forall (fun c => c <> BACKTICK) pre ->
  is_word w c = false -> c <> BACKTICK ->
  Forall (fun c => c <> BACKTICK) body ->
  Forall (fun c => c <> BACKTICK) post ->
  extract_code_blocks w (pre ++ FENCE ++ c :: body ++ FENCE ++ post) = [].
Proof.
  intros Hpre Hw Hc Hbody Hpost. unfold extract_code_blocks.
  rewrite finditer_prefix by done.
  change (FENCE ++ c :: body ++ FENCE ++ post)
    with (BACKTICK :: BACKTICK :: BACKTICK :: (c :: body) ++ FENCE ++ post).
  rewrite finditer_step_nil by (by apply (match_here_no_lang w c)).
  rewrite finditer_step_nil.
  2:{ apply match_here_needs_fence. unfold fence_at. simpl.
      apply bool_decide_eq_false. intros [= ->]. done. }
  rewrite finditer_step_nil.
  2:{ apply match_here_needs_fence. unfold fence_at. simpl.
      apply bool_decide_eq_false. intros [= -> _]. done. }
  rewrite finditer_prefix by (by constructor).
  rewrite finditer_few_backticks; [done|].
  rewrite backticks_app, (backticks_none post) by done.
  change (backticks FENCE) with 3. lia.
Qed.

Lemma extract_no_language_witness :
  extract_code_blocks (fun _ => false)
    (py "Run:\n" ++ FENCE ++ NL :: py "make test\n" ++ FENCE ++ py "\n") = [].
Proof.
  apply (extract_no_language (fun _ => false) (py "Run:\n") (py "make test\n") (py "\n") NL).
  - vm_compute. repeat constructor; discriminate.
  - vm_compute. reflexivity.
  - vm_compute. discriminate.
  - vm_compute. repeat constructor; discriminate.
  - vm_compute. repeat constructor; discriminate.
Defined.

Lemma lstrip_suffix (s : str) : exists pre, s = pre ++ lstrip s.
Proof.
  induction s as [|c s [pre IH]]; [by exists []|]. simpl.
  destruct (is_space c); [|by exists []].
  exists (c :: pre). simpl. by rewrite <- IH.
Qed.

Lemma strip_last (s : str) (c : char) : last (strip s) = Some c -> is_space c = false.
Proof.
  unfold strip, rstrip. rewrite last_reverse. apply lstrip_head.
Qed.

Lemma strip_head (s : str) (c : char) : head (strip s) = Some c -> is_space c = false.
Proof.
  unfold strip, rstrip. rewrite head_reverse. intros Hl.
  destruct (lstrip_suffix (reverse (lstrip s))) as [pre Hpre].
  assert (Hlast : last (reverse (lstrip s)) = Some c).
  { rewrite Hpre, last_app, Hl. done. }
  rewrite last_reverse in Hlast. by apply lstrip_head in Hlast.
Qed.

Lemma strip_fixed (s : str) :
  (forall c, head s = Some c -> is_space c = false) ->
  (forall c, last s = Some c -> is_space c = false) ->
  strip s = s.
Proof.
  intros Hh Hl.
  assert (Hfix : forall t : str,
            (forall c, head t = Some c -> is_space c = false) -> lstrip t = t).
  { intros [|c t] Ht; [done|]. simpl. by rewrite (Ht c). }
  unfold strip, rstrip. rewrite (Hfix s Hh), Hfix.
  - apply reverse_involutive.
  - intros c. rewrite head_reverse. apply Hl.
Qed.

(** Stripping twice is stripping once. *)
Lemma strip_idemp (s : str) : strip (strip s) = strip s.
Proof. apply strip_fixed; [apply strip_head|apply strip_last]. Qed.

Lemma finditer_elem_suffix (w : char -> bool) (s : str) :
  forall (skip : nat) (g : str * option str * str),
    g ∈ finditer w skip s ->
    exists k r, head (match_here w (drop k s)) = Some (g, r).
Proof.
  induction s as [|c s IH]; intros skip g; simpl.
  - destruct skip; by intros ?%elem_of_nil.
  - assert (Hs : forall skip', g ∈ finditer w skip' s ->
                 exists k r, head (match_here w (drop k (c :: s))) = Some (g, r)).
    { intros skip' (k & r & H)%IH. by exists (S k), r. }
    destruct skip as [|skip]; [|apply Hs].
    destruct (head (match_here w (c :: s))) as [[g' r]|] eqn:Hh; [|apply Hs].
    intros [->|Hg]%elem_of_cons; [by exists 0, r|by eapply Hs].
Qed.

(** Every fragment stems from a fenced region of the text and is well
    formed: the text holds, one after the other, three backticks, the
    language, a colon and the path if there is one, a line feed, a body and
    three backticks; the language is a non-empty run of word characters, the
    path is non-empty and holds no line feed, and the content is the body
    stripped, which stripping again leaves as it is. *)
Theorem extract_fragment_shape (w : char -> bool) (ai_output : str) (b : CodeBlock) :
  b ∈ extract_code_blocks w ai_output ->
  (exists pre body post : str,
     ai_output = pre ++ FENCE ++ header (language b) (filepath b) ++ [NL]
                 ++ body ++ FENCE ++ post
     /\ content b = strip body)
  /\ language b <> []
  /\ Forall (fun c => is_word w c = true) (language b)
  /\ (forall p, filepath b = Some p -> p <> [] /\ Forall (fun c => c <> NL) p)
  /\ strip (content b) = content b.
Proof.
  unfold extract_code_blocks.
  intros ([[g1 g2] g3] & -> & Hg)%list_elem_of_fmap. simpl.
  apply finditer_elem_suffix in Hg as (k & r & Hh).
  apply head_Some_elem_of, match_here_elem in Hh as (Hs & Hne & Hw & Hp).
  split_and!; [|done|done|done|apply strip_idemp].
  exists (take k ai_output), g3, r. split; [|done].
  rewrite <- (take_drop k ai_output) at 1. f_equal. exact Hs.
Qed.

Lemma extract_fragment_shape_witness :
  (exists pre body post : str,
     py "see ```python:f.py\n x = 1 \n``` then"
     = pre ++ FENCE ++ header (py "python") (Some (py "f.py")) ++ [NL]
       ++ body ++ FENCE ++ post
     /\ py "x = 1" = strip body)
  /\ py "python" <> []
  /\ Forall (fun c => is_word (fun _ => false) c = true) (py "python")
  /\ (forall p, Some (py "f.py") = Some p -> p <> [] /\ Forall (fun c => c <> NL) p)
  /\ strip (py "x = 1") = py "x = 1".
Proof.
  apply (extract_fragment_shape (fun _ => false)
           (py "see ```python:f.py\n x = 1 \n``` then")
           (mkCodeBlock (py "python") (Some (py "f.py")) (py "x = 1"))).
  vm_compute. left.
Defined.

(** ** Further properties of the reconciler *)

Lemma block_step_dom (m : gmap str str) (b : CodeBlock) :
  filepath b <> Some [] ->
  dom (block_step m b) = dom m ∪ list_to_set (omap filepath [b]).
Proof.
  intros Hp. unfold block_step. simpl.
  destruct (filepath b) as [p|]; simpl; [|set_solver].
  rewrite bool_decide_eq_false_2 by (by intros ->).
  destruct (m !! p); rewrite dom_insert_L; set_solver.
Qed.

Lemma fold_block_step_dom (bs : list CodeBlock) (m : gmap str str) :
  Forall (fun b => filepath b <> Some []) bs ->
  dom (fold_left block_step bs m) = dom m ∪ list_to_set (omap filepath bs).
Proof.
  intros Hbs. revert m. induction Hbs as [|b bs Hb _ IH]; intros m; simpl.
  - set_solver.
  - rewrite IH, block_step_dom by done. simpl.
    destruct (filepath b); simpl; set_solver.
Qed.

(** The keys of the returned dictionary are the keys of the input and the
    target paths of the fragments, and no other. *)
Theorem process_ai_output_keys (w : char -> bool) (ai_output : str)
    (files : ref) (h : store) (m : gmap str str) :
  h !! files = Some m ->
  exists (modified_files : ref) (h' : store) (m' : gmap str str),
    process_ai_output w ai_output files h = Some (modified_files, h')
    /\ h' !! modified_files = Some m'
    /\ dom m' = dom m ∪ list_to_set (omap filepath (extract_code_blocks w ai_output)).
Proof.
  intros Hf. eexists _, _, _. split; [by apply process_ai_output_run|].
  split; [apply lookup_insert_eq|].
  apply fold_block_step_dom, Forall_forall.
  intros b Hb. by apply (extract_filepath_nonempty w ai_output).
Qed.

Lemma process_ai_output_keys_witness :
  exists (modified_files : ref) (h' : store) (m' : gmap str str),
    process_ai_output (fun _ => false)
      (py "```python:new.py\nx = 1\n```\n```sh\nls\n```") 1%positive
      {[ 1%positive := {[ py "f.py" := py "print('Hello')" ]} ]}
    = Some (modified_files, h')
    /\ h' !! modified_files = Some m'
    /\ dom m' = dom ({[ py "f.py" := py "print('Hello')" ]} : gmap str str)
                ∪ list_to_set (omap filepath
                    (extract_code_blocks (fun _ => false)
                       (py "```python:new.py\nx = 1\n```\n```sh\nls\n```"))).
Proof.
  apply (process_ai_output_keys (fun _ => false)
           (py "```python:new.py\nx = 1\n```\n```sh\nls\n```") 1%positive
           {[ 1%positive := {[ py "f.py" := py "print('Hello')" ]} ]}
           {[ py "f.py" := py "print('Hello')" ]}).
  vm_compute. reflexivity.
Defined.

Lemma fold_block_step_no_path (bs : list CodeBlock) (m : gmap str str) :
  Forall (fun b => filepath b = None) bs -> fold_left block_step bs m = m.
Proof.
  induction 1 as [|b bs Hb _ IH]; simpl; [done|].
  unfold block_step at 2. by rewrite Hb.
Qed.

(** Fragments without a target path are skipped: when no fragment names a
    path, as for a text without fences, the returned dictionary holds the
    entries of the input, byte for byte. *)
Theorem process_ai_output_untargeted (w : char -> bool) (ai_output : str)
    (files : ref) (h : store) (m : gmap str str) :
  h !! files = Some m ->
  (forall b, b ∈ extract_code_blocks w ai_output -> filepath b = None) ->
  exists (modified_files : ref) (h' : store),
    process_ai_output w ai_output files h = Some (modified_files, h')
    /\ h' !! modified_files = Some m.
Proof.
  intros Hf Hnone. eexists _, _. split; [by apply process_ai_output_run|].
  rewrite lookup_insert_eq, fold_block_step_no_path; [done|].
  by apply Forall_forall.
Qed.

Lemma process_ai_output_untargeted_witness :
  exists (modified_files : ref) (h' : store),
    process_ai_output (fun _ => false) (py "Run:\n```sh\nrm f.py\n```\n") 1%positive
      {[ 1%positive := {[ py "f.py" := py "print('Hello')\r\n" ]} ]}
    = Some (modified_files, h')
    /\ h' !! modified_files = Some {[ py "f.py" := py "print('Hello')\r\n" ]}.
Proof.
  apply (process_ai_output_untargeted (fun _ => false)
           (py "Run:\n```sh\nrm f.py\n```\n") 1%positive
           {[ 1%positive := {[ py "f.py" := py "print('Hello')\r\n" ]} ]}
           {[ py "f.py" := py "print('Hello')\r\n" ]}).
  - vm_compute. reflexivity.
  - intros b Hb. vm_compute in Hb. apply list_elem_of_singleton in Hb. by subst b.
Defined.

Lemma parse_code_block_segments (block_content : str) :
  exists runs : list (list str), parse_code_block block_content = segment <$> runs.
Proof.
  rewrite parse_code_block_flush.
  destruct (fold_seg_step_runs (splitlines block_content) [] [] false)
    as (rs & cur & flag & H1 & _ & _); [done|done|].
  change (SegState [] [] false) with (SegState (segment <$> []) [] false).
  rewrite H1. unfold flush. simpl. destruct cur as [|c cur]; simpl.
  - by exists rs.
  - exists (rs ++ [c :: cur]). by rewrite fmap_app.
Qed.

Lemma apply_changes_segments (current_content : str) (runs : list (list str)) :
  apply_changes current_content (segment <$> runs)
  = fold_left apply_diff ((fun ch : change => ch.1.2) <$> (segment <$> runs))
      current_content.
Proof.
  unfold apply_changes. revert current_content.
  induction runs as [|r runs IH]; intros cur; simpl; [done|].
  apply IH.
Qed.

Lemma block_step_existing (m : gmap str str) (b : CodeBlock) (p v : str) :
  filepath b = Some p -> p <> [] -> m !! p = Some v ->
  block_step m b
  = <[p := fold_left apply_diff
             ((fun ch : change => ch.1.2) <$> parse_code_block (content b)) v]> m.
Proof.
  intros Hp Hne Hm. unfold block_step. rewrite Hp.
  rewrite bool_decide_eq_false_2 by done. rewrite Hm.
  destruct (parse_code_block_segments (content b)) as [runs ->].
  by rewrite apply_changes_segments.
Qed.

(** The existing-file path.  When the loop reaches an extracted fragment
    whose target path is a key of the dictionary, the new value of the path
    is its value merged with every segment of the fragment, in order, each
    merge starting from the result of the one before. *)
Theorem existing_file_merged (w : char -> bool) (ai_output : str)
    (b : CodeBlock) (p v : str) (l : ref) (h : store) (m : gmap str str) :
  b ∈ extract_code_blocks w ai_output ->
  filepath b = Some p ->
  h !! l = Some m ->
  m !! p = Some v ->
  process_block l b h
  = Some (tt, <[l := <[p := fold_left apply_diff
                             ((fun ch : change => ch.1.2)
                                <$> parse_code_block (content b)) v]> m]> h).
Proof.
  intros Hb Hp Hl Hm. rewrite (process_block_run l b h m Hl). do 3 f_equal.
  apply block_step_existing; [done| |done].
  intros ->. by apply (extract_filepath_nonempty _ _ _ Hb).
Qed.

Lemma existing_file_merged_witness :
  process_block 1%positive
    (mkCodeBlock (py "python") (Some (py "f.py")) (py "a\n# ...\nc\nd"))
    {[ 1%positive := {[ py "f.py" := py "a\nb\nc" ]} ]}
  = Some (tt, <[1%positive :=
                 <[py "f.py" :=
                     fold_left apply_diff
                       ((fun ch : change => ch.1.2)
                          <$> parse_code_block (py "a\n# ...\nc\nd")) (py "a\nb\nc")]>
                   {[ py "f.py" := py "a\nb\nc" ]}]>
               {[ 1%positive := {[ py "f.py" := py "a\nb\nc" ]} ]}).
Proof.
  apply (existing_file_merged (fun _ => false)
           (py "```python:f.py\na\n# ...\nc\nd\n```")
           (mkCodeBlock (py "python") (Some (py "f.py")) (py "a\n# ...\nc\nd"))
           (py "f.py") (py "a\nb\nc") 1%positive
           {[ 1%positive := {[ py "f.py" := py "a\nb\nc" ]} ]}
           {[ py "f.py" := py "a\nb\nc" ]}).
  - vm_compute. left.
  - reflexivity.
  - vm_compute. reflexivity.
  - vm_compute. reflexivity.
Defined.

(** A fragment whose body is empty or holds elision markers only leaves an
    existing file as it is, byte for byte: nothing is merged, so the content
    is not even split into lines and joined again. *)
Theorem markers_only_fragment_noop (w : char -> bool) (ai_output : str)
    (b : CodeBlock) (p v : str) (l : ref) (h : store) (m : gmap str str) :
  b ∈ extract_code_blocks w ai_output ->
  filepath b = Some p ->
  Forall (fun line => is_marker line = true) (splitlines (content b)) ->
  h !! l = Some m ->
  m !! p = Some v ->
  process_block l b h = Some (tt, h).
Proof.
  intros Hb Hp Hmark Hl Hm. rewrite (process_block_run l b h m Hl).
  rewrite (block_step_existing m b p v); [|done| |done].
  - rewrite parse_code_block_flush, fold_seg_step_markers by done. simpl.
    by rewrite (insert_id m p v Hm), (insert_id h l m Hl).
  - intros ->. by apply (extract_filepath_nonempty _ _ _ Hb).
Qed.

Lemma markers_only_fragment_noop_witness :
  process_block 1%positive
    (mkCodeBlock (py "python") (Some (py "f.py")) (py "# ...\n// rest of the file"))
    {[ 1%positive := {[ py "f.py" := py "a\r\nb\n" ]} ]}
  = Some (tt, {[ 1%positive := {[ py "f.py" := py "a\r\nb\n" ]} ]}).
Proof.
  apply (markers_only_fragment_noop (fun _ => false)
           (py "```python:f.py\n# ...\n// rest of the file\n```")
           (mkCodeBlock (py "python") (Some (py "f.py")) (py "# ...\n// rest of the file"))
           (py "f.py") (py "a\r\nb\n") 1%positive
           {[ 1%positive := {[ py "f.py" := py "a\r\nb\n" ]} ]}
           {[ py "f.py" := py "a\r\nb\n" ]}).
  - vm_compute. left.
  - reflexivity.
  - vm_compute. repeat constructor.
  - vm_compute. reflexivity.
  - vm_compute. reflexivity.
Defined.

Lemma fold_apply_diff_empty (texts : list str) : fold_left apply_diff texts [] = [].
Proof. induction texts as [|t texts IH]; simpl; [done|]. apply IH. Qed.

(** An existing empty file is never filled: the merger has no line to
    anchor a segment to, so whatever the fragment holds, the file stays
    empty and the store is unchanged. *)
Theorem empty_file_stays_empty (w : char -> bool) (ai_output : str)
    (b : CodeBlock) (p : str) (l : ref) (h : store) (m : gmap str str) :
  b ∈ extract_code_blocks w ai_output ->
  filepath b = Some p ->
  h !! l = Some m ->
  m !! p = Some [] ->
  process_block l b h = Some (tt, h).
Proof.
  intros Hb Hp Hl Hm. rewrite (process_block_run l b h m Hl).
  rewrite (block_step_existing m b p []); [|done| |done].
  - rewrite fold_apply_diff_empty.
    by rewrite (insert_id m p [] Hm), (insert_id h l m Hl).
  - intros ->. by apply (extract_filepath_nonempty _ _ _ Hb).
Qed.

Lemma empty_file_stays_empty_witness :
  process_block 1%positive
    (mkCodeBlock (py "python") (Some (py "f.py")) (py "print('Hello')"))
    {[ 1%positive := {[ py "f.py" := py "" ]} ]}
  = Some (tt, {[ 1%positive := {[ py "f.py" := py "" ]} ]}).
Proof.
  apply (empty_file_stays_empty (fun _ => false)
           (py "```python:f.py\nprint('Hello')\n```")
           (mkCodeBlock (py "python") (Some (py "f.py")) (py "print('Hello')"))
           (py "f.py") 1%positive
           {[ 1%positive := {[ py "f.py" := py "" ]} ]}
           {[ py "f.py" := py "" ]}).
  - vm_compute. left.
  - reflexivity.
  - vm_compute. reflexivity.
  - vm_compute. reflexivity.
Defined.
